(** * Portfolio-Website: the repository-data fetch and readme pipeline

  A shallow embedding of the three fetchers of the site
  ([Projects.js], [ProjectModal.js], [RepoLanguages.js]) and the
  properties of their results.

  JavaScript strings are modelled as [string]; the browser and the
  network are the environment: a fetch delivers a [fetch_result], the
  HTML parser and serializer are the two operations of [DomApi], and the
  order in which pending promises settle is a list of events. *)

From Stdlib Require Import ZArith NArith Lia Ascii String DecimalString.
From stdpp Require Import base option list strings gmap.

Set Warnings "-register-all".

Local Open Scope string_scope.
Local Open Scope list_scope.

(** ** JavaScript strings and arrays *)

Module JS.

(** [s.startsWith(searchString)] *)
Fixpoint startsWith (s searchString : string) {struct searchString} : bool :=
  match searchString, s with
  | EmptyString, _ => true
  | String c p, String d s' => if Ascii.eqb c d then startsWith s' p else false
  | String _ _, EmptyString => false
  end.

(** [s.includes(searchString)] *)
Fixpoint includes (s searchString : string) : bool :=
  if startsWith s searchString then true
  else match s with
       | EmptyString => false
       | String _ s' => includes s' searchString
       end.

(** [s.replace(/^\//, '')]: one leading slash, when there is one, is
    removed. *)
Definition replace_leading_slash (s : string) : string :=
  match s with
  | String "/"%char rest => rest
  | _ => s
  end.

(** [s.replace(/^\.?\//, '')]: an optional dot followed by a slash, at the
    start of the string, is removed. *)
Definition replace_leading_dot_slash (s : string) : string :=
  match s with
  | String "."%char (String "/"%char rest) => rest
  | String "/"%char rest => rest
  | _ => s
  end.

(** Truthiness of a string value that may be [null]/[undefined]: the empty
    string is falsy as well. *)
Definition truthy (v : option string) : bool :=
  match v with
  | Some EmptyString | None => false
  | Some _ => true
  end.

(** [v || d] on strings *)
Definition or_else (v : option string) (d : string) : string :=
  match v with
  | Some EmptyString | None => d
  | Some s => s
  end.

(** The relative index of [Array.prototype.slice]: a negative index counts
    from the end, and the result is clamped to [0..len]. *)
Definition relative_index (len k : Z) : Z :=
  if (k <? 0)%Z then Z.max (len + k) 0 else Z.min k len.

(** [l.slice(start, end)] *)
Definition slice {A} (start end_ : Z) (l : list A) : list A :=
  let len := Z.of_nat (length l) in
  let k := relative_index len start in
  let final := relative_index len end_ in
  take (Z.to_nat (final - k)) (drop (Z.to_nat k) l).

End JS.

(** ** The DOM, as far as the fetchers use it *)

Module Dom.

Inductive node : Type :=
| Text (data : string)
| Element (tagName : string) (attributes : list (string * string))
          (childNodes : list node).

(** [el.getAttribute(name)]: [None] is JavaScript's [null]. *)
Fixpoint lookup_attribute (name : string) (attrs : list (string * string))
  : option string :=
  match attrs with
  | [] => None
  | (k, v) :: rest => if String.eqb k name then Some v
                      else lookup_attribute name rest
  end.

Definition getAttribute (el : node) (name : string) : option string :=
  match el with
  | Text _ => None
  | Element _ attrs _ => lookup_attribute name attrs
  end.

(** [el.setAttribute(name, value)]: the value of an attribute that is there
    is changed in place, a new attribute is appended. *)
Fixpoint update_attribute (name value : string)
         (attrs : list (string * string)) : list (string * string) :=
  match attrs with
  | [] => [(name, value)]
  | (k, v) :: rest => if String.eqb k name then (k, value) :: rest
                      else (k, v) :: update_attribute name value rest
  end.

Definition setAttribute (el : node) (name value : string) : node :=
  match el with
  | Text _ => el
  | Element tag attrs children =>
      Element tag (update_attribute name value attrs) children
  end.

Definition is_img (n : node) : bool :=
  match n with
  | Element tag _ _ => String.eqb tag "img"
  | Text _ => false
  end.

(** [root.querySelectorAll('img')]: the [img] descendants in document
    order (the parser has the tag names of HTML elements in lower case). *)
Fixpoint images_of (n : node) : list node :=
  match n with
  | Text _ => []
  | Element tag attrs children =>
      (if String.eqb tag "img" then [n] else [])
        ++ flat_map images_of children
  end.

Definition querySelectorAll_img (children : list node) : list node :=
  flat_map images_of children.

(** The value of [src] of each image of a list. *)
Definition sources (images : list node) : list (option string) :=
  map (fun img => getAttribute img "src") images.

(** The two operations of the browser on a detached [div]: assigning
    markup to [innerHTML] parses it into the children of the element,
    reading [innerHTML] serializes them. *)
Class DomApi := {
  parseHTML : string -> list node;
  innerHTML : list node -> string
}.

End Dom.

(** ** The network *)

Module Http.

(** Reading the body of a response ([response.text()],
    [response.json()]) rejects when the body cannot be read or decoded. *)
Inductive body (A : Type) : Type :=
| BodyRejects
| Body (a : A).
Global Arguments BodyRejects {A}.
Global Arguments Body {A} a.

(** [await fetch(url, ...)] rejects on a transport failure; every HTTP
    reply, whatever its status, resolves to a response whose [ok] flag
    says whether the status is in 200..299. *)
Inductive fetch_result (A : Type) : Type :=
| FetchRejects
| Response (ok : bool) (b : body A).
Global Arguments FetchRejects {A}.
Global Arguments Response {A} ok b.

End Http.

(** ** Repository records *)

(** A repository of the listing; [owner_login] is [owner.login], and a
    field that is absent or [null] is [None]. *)
Record repo : Type := Repo {
  repo_id : Z;
  owner_login : string;
  name : string;
  description : option string;
  default_branch : option string;
  fork : bool;
  stargazers_count : Z;
  forks_count : Z;
  languages_url : string;
  html_url : string
}.

(** ** Projects.js: the repository lister and the readme fetcher of the
    list *)

Module Projects.
Import JS Dom Http.

Definition GITHUB_USERNAME : string := "tyler-bravin".

(** [{ ...repo, imageUrls }] *)
Record repoWithImages : Type := WithImages {
  summary : repo;
  imageUrls : list string
}.

(** [reposData.filter(repo => !repo.fork).slice(0, 6)] *)
Definition selectRepos (reposData : list repo) : list repo :=
  slice 0 6 (List.filter (fun repo => negb (fork repo)) reposData).

(** The callback of [filter]: [src && src.includes('/assets/')]. *)
Definition fromAssets (img : node) : bool :=
  let src := getAttribute img "src" in
  if truthy src
  then match src with
       | Some s => includes s "/assets/"
       | None => false
       end
  else false.

(** The template literal of the callback of [map], on the value of [src]. *)
Definition rawUrl (r : repo) (src : string) : string :=
  let defaultBranch := or_else (default_branch r) "main" in
  "https://raw.githubusercontent.com/" +:+ GITHUB_USERNAME +:+ "/"
    +:+ name r +:+ "/" +:+ defaultBranch +:+ "/"
    +:+ replace_leading_slash src.

(** The callback of [map]; [None] is the TypeError of [src.replace] on
    [null]. *)
Definition imageUrl (r : repo) (img : node) : option string :=
  match getAttribute img "src" with
  | Some src => Some (rawUrl r src)
  | None => None
  end.

(** [Array.from(images).filter(...).map(...)] *)
Definition extractUrls (r : repo) (images : list node)
  : option (list string) :=
  mapM (imageUrl r) (List.filter fromAssets images).

(** The async callback given to [reposData.map]: it resolves in every case,
    both [return]s of the failure paths and the [catch] giving the
    repository with no image. *)
Definition withImages `{DomApi} (r : repo) (readme : fetch_result string)
  : repoWithImages :=
  match readme with
  | FetchRejects => WithImages r []
  | Response ok b =>
      if negb ok then WithImages r []
      else match b with
           | BodyRejects => WithImages r []
           | Body readmeHtml =>
               let images := querySelectorAll_img (parseHTML readmeHtml) in
               match extractUrls r images with
               | Some urls => WithImages r urls
               | None => WithImages r []
               end
           end
  end.

(** The decoded body of the listing: [filter] is a method of arrays only. *)
Inductive listing : Type :=
| NotAnArray
| RepoArray (reposData : list repo).

(** The effect of the component as a machine over the settling of its
    requests.  [Promise.all] keeps one slot per promise, in the order of
    the array, and resolves when the last slot is filled. *)
Inductive phase : Type :=
| AwaitListing
| AwaitReadmes (reposData : list repo)
               (slots : list (option repoWithImages))
| Finished.

Record state : Type := State {
  repos : list repoWithImages;
  loading : bool;
  stage : phase
}.

Inductive event : Type :=
| ListingSettled (o : fetch_result listing)
| ReadmeSettled (i : nat) (o : fetch_result string).

(** [useState([])], [useState(true)] *)
Definition initial : state := State [] true AwaitListing.

(** The continuation of [await Promise.all(...)]: [setRepos], then the
    [finally] block. *)
Definition join (reposData : list repo)
           (slots : list (option repoWithImages)) (st : state) : state :=
  match mapM id slots with
  | Some reposWithImages => State reposWithImages false Finished
  | None => State (repos st) (loading st) (AwaitReadmes reposData slots)
  end.

Definition step `{DomApi} (st : state) (e : event) : state :=
  match stage st, e with
  | AwaitListing, ListingSettled (Response _ (Body (RepoArray reposData))) =>
      let selected := selectRepos reposData in
      join selected (replicate (length selected) None) st
  | AwaitListing, ListingSettled _ =>
      (* the outer [catch], then [finally] *)
      State (repos st) false Finished
  | AwaitReadmes reposData slots, ReadmeSettled i o =>
      match reposData !! i, slots !! i with
      | Some r, Some None =>
          join reposData (<[i := Some (withImages r o)]> slots) st
      | _, _ => st
      end
  | _, _ => st
  end.

Definition run `{DomApi} (st : state) (events : list event) : state :=
  fold_left step events st.

(** The events in which the readmes settle in the order [schedule], the
    readme of repository [i] with [net i]. *)
Definition settling (net : nat -> fetch_result string) (schedule : list nat)
  : list event :=
  map (fun i => ReadmeSettled i (net i)) schedule.

(** The failures of a readme request that the callback handles. *)
Definition failed (o : fetch_result string) : bool :=
  match o with
  | FetchRejects => true
  | Response ok b =>
      negb ok || match b with BodyRejects => true | Body _ => false end
  end.

(** The slots of [Promise.all] once the readmes of the indices [settled]
    have settled, and the state of the component then. *)
Definition slotsAfter `{DomApi} (reposData : list repo)
           (net : nat -> fetch_result string) (settled : list nat)
  : list (option repoWithImages) :=
  imap (fun j r => if bool_decide (j ∈ settled)
                   then Some (withImages r (net j)) else None) reposData.

Definition after `{DomApi} (reposData : list repo)
           (net : nat -> fetch_result string) (settled : list nat) : state :=
  join reposData (slotsAfter reposData net settled) initial.

(** [fetchReposAndImages] as a whole: the state it leaves when the listing
    settles with [listed] and the readme of repository [i] with [net i]. *)
Definition fetchReposAndImages `{DomApi} (listed : fetch_result listing)
           (net : nat -> fetch_result string) (st : state) : state :=
  match listed with
  | Response _ (Body (RepoArray reposData)) =>
      State (imap (fun i r => withImages r (net i)) (selectRepos reposData))
            false Finished
  | _ => State (repos st) false Finished
  end.

(** The part of the template literal before the source. *)
Definition rawBase (r : repo) : string :=
  "https://raw.githubusercontent.com/" +:+ GITHUB_USERNAME +:+ "/"
    +:+ name r +:+ "/" +:+ or_else (default_branch r) "main" +:+ "/".

End Projects.

(** ** ProjectModal.js: the readme fetcher of the detail view *)

Module ProjectModal.
Import JS Dom Http.

Definition placeholder : string :=
  "<p>Could not load README for this project.</p>".

Definition correctedSrc (r : repo) (src : string) : string :=
  let defaultBranch := or_else (default_branch r) "main" in
  "https://raw.githubusercontent.com/" +:+ owner_login r +:+ "/"
    +:+ name r +:+ "/" +:+ defaultBranch +:+ "/"
    +:+ replace_leading_dot_slash src.

(** The value of [src] after the callback of [forEach], when it is
    there. *)
Definition rewriteSrc (r : repo) (src : string) : string :=
  if negb (startsWith src "http") then correctedSrc r src else src.

(** The callback of [images.forEach]; [None] is the TypeError of
    [src.startsWith] on [null]. *)
Definition fixImage (r : repo) (img : node) : option node :=
  match getAttribute img "src" with
  | None => None
  | Some src =>
      if negb (startsWith src "http")
      then Some (setAttribute img "src" (correctedSrc r src))
      else Some img
  end.

Definition withChildren (n : node) (children : list node) : node :=
  match n with
  | Text _ => n
  | Element tag attrs _ => Element tag attrs children
  end.

(** The loop over the [img] elements of the tree, which changes them in
    place: every [img] of the tree is given to [fixImage], and the loop is
    left at the first fault. *)
Fixpoint fixNode (r : repo) (n : node) : option node :=
  match n with
  | Text _ => Some n
  | Element tag attrs children =>
      match (if is_img n then fixImage r n else Some n) with
      | None => None
      | Some n' =>
          match mapM (fixNode r) children with
          | None => None
          | Some children' => Some (withChildren n' children')
          end
      end
  end.

Definition fixImages (r : repo) (children : list node) : option (list node) :=
  mapM (fixNode r) children.

(** The loop succeeds on a tree all of whose images have a source, and
    leaves every source rewritten. *)
Definition rewritten (r : repo) (n : node) : Prop :=
  Forall (fun img => is_Some (getAttribute img "src")) (images_of n) ->
  exists n',
    fixNode r n = Some n' /\
    sources (images_of n') = map (fmap (rewriteSrc r)) (sources (images_of n)).

(** The argument of [setReadmeHtml] in a run of [fetchReadme] whose request
    settles with [readme]. *)
Definition fetchReadme `{DomApi} (r : repo) (readme : fetch_result string)
  : string :=
  match readme with
  | FetchRejects => placeholder
  | Response _ BodyRejects => placeholder
  | Response _ (Body html) =>
      match fixImages r (parseHTML html) with
      | Some children => innerHTML children
      | None => placeholder
      end
  end.

(** The component over its renders and the settling of its requests.  The
    prop [repo] is an object or [null]; [useEffect] compares it with the one
    of the previous render by identity, which is the [nat] here.  Requests
    are numbered in the order they are issued. *)
Record state : Type := State {
  selected : option (nat * repo);
  mounted : bool;
  readmeHtml : string;
  loading : bool;
  inflight : list (nat * repo);
  issued : nat
}.

Inductive event : Type :=
| Render (prop : option (nat * repo))
| Settled (request : nat) (readme : fetch_result string).

(** [useState('')], [useState(true)] *)
Definition initial : state := State None false "" true [] 0.

Definition same_identity (a b : option (nat * repo)) : bool :=
  match a, b with
  | None, None => true
  | Some (i, _), Some (j, _) => Nat.eqb i j
  | _, _ => false
  end.

Fixpoint request_of (request : nat) (l : list (nat * repo)) : option repo :=
  match l with
  | [] => None
  | (k, r) :: rest => if Nat.eqb k request then Some r
                      else request_of request rest
  end.

Definition without (request : nat) (l : list (nat * repo))
  : list (nat * repo) :=
  List.filter (fun kr => negb (Nat.eqb (fst kr) request)) l.

(** The body of the effect: nothing without a repository; otherwise
    [setLoading(true)] and the request. *)
Definition effect (prop : option (nat * repo)) (st : state) : state :=
  match prop with
  | None => st
  | Some (_, r) =>
      State (selected st) (mounted st) (readmeHtml st) true
            (inflight st ++ [(issued st, r)]) (S (issued st))
  end.

Definition step `{DomApi} (st : state) (e : event) : state :=
  match e with
  | Render prop =>
      let st' := State prop true (readmeHtml st) (loading st)
                       (inflight st) (issued st) in
      if mounted st && same_identity (selected st) prop then st'
      else effect prop st'
  | Settled request readme =>
      match request_of request (inflight st) with
      | None => st
      | Some r =>
          (* [setReadmeHtml] in [try] or [catch], [setLoading(false)] in
             [finally] *)
          State (selected st) (mounted st) (fetchReadme r readme) false
                (without request (inflight st)) (issued st)
      end
  end.

Definition run `{DomApi} (st : state) (events : list event) : state :=
  fold_left step events st.

(** What the component renders: [null] without a repository, otherwise the
    loading text or the document. *)
Inductive content : Type :=
| LoadingText
| Document (html : string).

Definition render (st : state) : option content :=
  match selected st with
  | None => None
  | Some _ => Some (if loading st then LoadingText
                    else Document (readmeHtml st))
  end.

End ProjectModal.

(** ** RepoLanguages.js: the language tagger *)

Module RepoLanguages.
Import JS Http.

(** A decoded JSON value.  The properties of an object are listed in the
    order of their creation, which for [response.json()] is the order of
    the keys in the response. *)
Inductive json : Type :=
| JNull
| JBool (b : bool)
| JNumber (n : Z)
| JString (s : string)
| JArray (items : list json)
| JObject (properties : list (string * json)).

Definition index_key (n : N) : string :=
  NilEmpty.string_of_uint (N.to_uint n).

(** A property key is an array index when it is the canonical decimal
    numeral of an integer below 2^32 - 1. *)
Definition array_index (key : string) : option N :=
  match NilEmpty.uint_of_string key with
  | Some u =>
      let n := N.of_uint u in
      if String.eqb (index_key n) key && (n <? 4294967295)%N
      then Some n else None
  | None => None
  end.

Fixpoint insert_index (n : N) (sorted : list N) : list N :=
  match sorted with
  | [] => [n]
  | m :: rest => if (n <=? m)%N then n :: sorted
                 else m :: insert_index n rest
  end.

Definition ascending (l : list N) : list N :=
  fold_right insert_index [] l.

Definition is_index (key : string) : bool :=
  match array_index key with Some _ => true | None => false end.

(** The own property keys of an ordinary object: the array indices in
    ascending numeric order, then the other keys in the order of their
    creation. *)
Definition own_keys (keys : list string) : list string :=
  map index_key (ascending (omap array_index keys))
    ++ List.filter (fun k => negb (is_index k)) keys.

Definition indices (len : nat) : list string :=
  map (fun i => index_key (N.of_nat i)) (seq 0 len).

(** [Object.keys(data)]; [None] is the TypeError on [null].  A number or a
    boolean has no own key, a string and an array have their indices. *)
Definition Object_keys (data : json) : option (list string) :=
  match data with
  | JNull => None
  | JBool _ | JNumber _ => Some []
  | JString s => Some (indices (String.length s))
  | JArray items => Some (indices (length items))
  | JObject properties => Some (own_keys (map fst properties))
  end.

(** The state [languages] after a run of [fetchLanguages] whose request
    settles with [response]: [setLanguages] is reached when nothing was
    thrown, the [catch] leaves the state as it is. *)
Definition fetchLanguages (languages : list string)
           (response : fetch_result json) : list string :=
  match response with
  | FetchRejects => languages
  | Response _ BodyRejects => languages
  | Response _ (Body data) =>
      match Object_keys data with
      | Some keys => slice 0 3 keys
      | None => languages
      end
  end.

(** [useState([])] *)
Definition initial : list string := [].

(** What the component renders: [null], or the list of tags. *)
Definition render (languages : list string) : option (list string) :=
  if Nat.eqb (length languages) 0 then None else Some languages.

End RepoLanguages.

(** ** The addressing rule of the specification, and example data *)

Module Spec.

Fixpoint drop_chars (n : nat) (s : string) : string :=
  match n, s with
  | S n', String _ s' => drop_chars n' s'
  | _, _ => s
  end.

(** The path with a leading [./] or [/] stripped. *)
Definition stripped (p : string) : string :=
  if JS.startsWith p "./" then drop_chars 2 p
  else if JS.startsWith p "/" then drop_chars 1 p
  else p.

(** The raw-content URL of the path [p] in the repository
    [(owner, name, branch)], the branch falling back to [main]. *)
Definition rawContentUrl (owner name : string) (branch : option string)
           (p : string) : string :=
  String.concat "/"
    ["https://raw.githubusercontent.com"; owner; name;
     match branch with
     | Some b => if String.eqb b "" then "main" else b
     | None => "main"
     end;
     stripped p].

(** A repository that is not a fork. *)
Definition nonFork (r : repo) : bool := negb (fork r).

(** A source contains the reserved segment. *)
Definition inAssets (src : string) : Prop :=
  exists before after : string, src = before +:+ "/assets/" +:+ after.

(** An image qualifies when its source is there and contains the
    segment. *)
Definition qualifies (img : Dom.node) : Prop :=
  exists src, Dom.getAttribute img "src" = Some src /\ inAssets src.

(** The first three keys of a mapping, in the order of the response. *)
Definition firstThreeKeys {V} (mapping : list (string * V)) : list string :=
  take 3 (map fst mapping).

End Spec.

Module Examples.
Import Dom.

Definition quote : string := String (ascii_of_nat 34) EmptyString.

Fixpoint escape (in_attribute : bool) (s : string) : string :=
  match s with
  | EmptyString => EmptyString
  | String c rest =>
      (if Ascii.eqb c "&" then "&amp;"
       else if in_attribute
            then (if Ascii.eqb c (ascii_of_nat 34) then "&quot;"
                  else String c EmptyString)
            else (if Ascii.eqb c "<" then "&lt;"
                  else if Ascii.eqb c ">" then "&gt;"
                  else String c EmptyString))
        +:+ escape in_attribute rest
  end.

Definition serializeAttribute (a : string * string) : string :=
  " " +:+ fst a +:+ "=" +:+ quote +:+ escape true (snd a) +:+ quote.

Definition void (tag : string) : bool :=
  bool_decide (tag ∈ ["area"; "base"; "br"; "col"; "embed"; "hr"; "img";
                      "input"; "link"; "meta"; "source"; "track"; "wbr"]).

(** The serialization of HTML fragments, for the elements of the
    examples. *)
Fixpoint serialize (n : node) : string :=
  match n with
  | Text data => escape false data
  | Element tag attrs children =>
      "<" +:+ tag +:+ String.concat "" (map serializeAttribute attrs) +:+ ">"
        +:+ (if void tag then ""
             else String.concat "" (map serialize children)
                    +:+ "</" +:+ tag +:+ ">")
  end.

Fixpoint page (html : string) (pages : list (string * list node))
  : option (list node) :=
  match pages with
  | [] => None
  | (markup, children) :: rest =>
      if String.eqb markup html then Some children else page html rest
  end.

(** A browser for examples: it knows the parse of the documents of
    [pages]; any other string is taken to be free of markup, and is one
    text node. *)
Definition browser (pages : list (string * list node)) : DomApi :=
  {| parseHTML html := match page html pages with
                       | Some children => children
                       | None => if String.eqb html "" then [] else [Text html]
                       end;
     innerHTML children := String.concat "" (map serialize children) |}.

Definition project (n : Z) (title : string) (forked : bool) : repo :=
  Repo n "tyler-bravin" title None (Some "main") forked 0 0
       ("https://api.github.com/repos/tyler-bravin/" +:+ title +:+ "/languages")
       ("https://github.com/tyler-bravin/" +:+ title).

Definition portfolio : repo := project 1 "Portfolio-Website" false.

Definition alpha : repo := project 2 "alpha" false.
Definition beta : repo := project 3 "beta" false.

Definition img (src : string) : node := Element "img" [("src", src)] [].

(** A readme with five images: a badge, two images under [/assets/], an
    image without [src], and an image of another folder. *)
Definition gallery : string :=
  "<p>Demo</p><img src=https://img.shields.io/badge/React-20232A>"
    +:+ "<img src=./assets/Website.png><img alt=logo>"
    +:+ "<img src=docs/shot.png><img src=/assets/mobile.png>".

Definition galleryNodes : list node :=
  [Element "p" [] [Text "Demo"];
   img "https://img.shields.io/badge/React-20232A";
   img "./assets/Website.png";
   Element "img" [("alt", "logo")] [];
   img "docs/shot.png";
   img "/assets/mobile.png"].

(** A readme with one image, the screenshot of the site. *)
Definition screenshot : string :=
  "<img src=./assets/Website.png alt=Screenshot>".

Definition screenshotNodes : list node :=
  [Element "img" [("src", "./assets/Website.png"); ("alt", "Screenshot")] []].

Definition pages : list (string * list node) :=
  [(gallery, galleryNodes); (screenshot, screenshotNodes)].

Definition quoted (s : string) : string := quote +:+ s +:+ quote.

(** The body of the reply with status 404 to the readme request. *)
Definition notFound : string :=
  "{" +:+ quoted "message" +:+ ":" +:+ quoted "Not Found" +:+ ","
    +:+ quoted "documentation_url" +:+ ":"
    +:+ quoted "https://docs.github.com/rest/repos/contents#get-a-repository-readme"
    +:+ "," +:+ quoted "status" +:+ ":" +:+ quoted "404" +:+ "}".

(** A listing of ten repositories, two of them forks. *)
Definition tenRepos : list repo :=
  [project 1 "a" false; project 2 "b" true; project 3 "c" false;
   project 4 "d" false; project 5 "e" false; project 6 "f" true;
   project 7 "g" false; project 8 "h" false; project 9 "i" false;
   project 10 "j" false].

(** The readmes of the six repositories that are listed: the third request
    is answered with status 404. *)
Definition sixReadmes (i : nat) : Http.fetch_result string :=
  match i with
  | 0 => Http.Response true (Http.Body gallery)
  | 2 => Http.Response false (Http.Body notFound)
  | _ => Http.Response true (Http.Body "No image here.")
  end.

End Examples.

(** ** What the loop of the detail view leaves alone *)

Module Skeleton.
Import Dom.

(** The attributes of an element without its [src], when it is an image. *)
Definition otherAttributes (tag : string) (attrs : list (string * string))
  : list (string * string) :=
  if String.eqb tag "img"
  then List.filter (fun kv => negb (String.eqb (fst kv) "src")) attrs
  else attrs.

(** A tree without the sources of its images. *)
Fixpoint skeleton (n : node) : node :=
  match n with
  | Text _ => n
  | Element tag attrs children =>
      Element tag (otherAttributes tag attrs) (map skeleton children)
  end.

End Skeleton.

(** ** The prefix of the URLs of the detail view, and the runs of the
    tagger *)

Module Addressing.
Import JS.

(** The part of the template literal of [correctedSrc] before the
    source. *)
Definition detailBase (r : repo) : string :=
  "https://raw.githubusercontent.com/" +:+ owner_login r +:+ "/"
    +:+ name r +:+ "/" +:+ or_else (default_branch r) "main" +:+ "/".

End Addressing.

Module TagRuns.
Import Http RepoLanguages.

(** A response with which [setLanguages] is reached. *)
Definition effective (response : fetch_result json) : bool :=
  match response with
  | Response _ (Body data) =>
      match Object_keys data with Some _ => true | None => false end
  | _ => false
  end.

(** The tags after the runs of the effect, one per response, from the
    first render on. *)
Definition afterRuns (responses : list (fetch_result json)) : list string :=
  fold_left fetchLanguages responses initial.

End TagRuns.

(** ** useDarkMode.js: the theme and its persistence *)

Module DarkMode.
Import JS.

(** What the hook reads and writes outside React: [localStorage] and the
    [data-theme] attribute of the root element. *)
Record page : Type := Page {
  localStorage : gmap string string;
  dataTheme : option string
}.

(** [localStorage.getItem('theme') || 'dark'] *)
Definition initialTheme (p : page) : string :=
  or_else (localStorage p !! "theme") "dark".

(** The argument of [setTheme] in [toggleTheme]. *)
Definition toggleTheme (theme : string) : string :=
  if String.eqb theme "light" then "dark" else "light".

(** The effect: [localStorage.setItem('theme', theme)], then
    [setAttribute('data-theme', theme)]. *)
Definition persist (theme : string) (p : page) : page :=
  Page (<["theme" := theme]> (localStorage p)) (Some theme).

Record state : Type := State {
  theme : string;
  document : page
}.

(** The first render and the first run of the effect. *)
Definition mount (p : page) : state :=
  State (initialTheme p) (persist (initialTheme p) p).

(** A click on the switcher: [toggleTheme], and the effect when the theme
    has changed. *)
Definition click (st : state) : state :=
  let next := toggleTheme (theme st) in
  if String.eqb next (theme st) then st
  else State next (persist next (document st)).

Definition clicks (n : nat) (st : state) : state := Nat.iter n click st.

(** The page loaded again: the storage is kept, the document is new. *)
Definition reload (st : state) : state :=
  mount (Page (localStorage (document st)) None).

(** What the session keeps true: the theme is not empty, it is what the
    storage and the attribute hold, and no other key of the storage was
    written. *)
Definition synced (p : page) (st : state) : Prop :=
  theme st <> "" /\
  localStorage (document st) !! "theme" = Some (theme st) /\
  dataTheme (document st) = Some (theme st) /\
  forall key, key <> "theme" ->
              localStorage (document st) !! key = localStorage p !! key.

End DarkMode.

(** ** ThemeSwitcher.js *)

Module ThemeSwitcher.

Inductive icon : Type := FiMoon | FiSun.

(** [theme === 'light' ? <FiMoon /> : <FiSun />] *)
Definition render (theme : string) : icon :=
  if String.eqb theme "light" then FiMoon else FiSun.

End ThemeSwitcher.

(** ** App.js: the favicon of the theme *)

Module App.
Import Dom.

(** [theme === 'dark' ? '/favicon-dark.ico' : '/favicon-light.ico'] *)
Definition faviconHref (theme : string) : string :=
  if String.eqb theme "dark" then "/favicon-dark.ico"
  else "/favicon-light.ico".

(** [newLink], its [id], [rel] and [href] set. *)
Definition newLink (theme : string) : node :=
  Element "link"
          [("id", "favicon"); ("rel", "icon"); ("href", faviconHref theme)] [].

Definition hasId (id : string) (n : node) : bool :=
  match getAttribute n "id" with
  | Some v => String.eqb v id
  | None => false
  end.

(** The element or one of its descendants has the id. *)
Fixpoint containsId (id : string) (n : node) : bool :=
  match n with
  | Text _ => false
  | Element _ _ children => hasId id n || existsb (containsId id) children
  end.

(** Neither the element nor a descendant has the id. *)
Definition free (id : string) (n : node) : Prop := containsId id n = false.

(** Where [document.getElementById] finds its element, the document being
    the children of [head] followed by the children of [body] (the root, the
    head and the body themselves have no id): the first element with the id
    in the order of the document. *)
Inductive location : Type :=
| Absent
| HeadChild (i : nat)
| Elsewhere.

Fixpoint locate (id : string) (i : nat) (head : list node) : location :=
  match head with
  | [] => Absent
  | child :: rest =>
      if hasId id child then HeadChild i
      else if containsId id child then Elsewhere
      else locate id (S i) rest
  end.

Definition getElementById (id : string) (head body : list node) : location :=
  match locate id 0 head with
  | Absent => if existsb (containsId id) body then Elsewhere else Absent
  | found => found
  end.

(** The effect on the children of [head]; [None] is the NotFoundError of
    [removeChild] on an element that is not a child of [head]. *)
Definition faviconEffect (theme : string) (head body : list node)
  : option (list node) :=
  match getElementById "favicon" head body with
  | Absent => Some (head ++ [newLink theme])
  | HeadChild i => Some (delete i head ++ [newLink theme])
  | Elsewhere => None
  end.

(** The runs of the effect for the themes of a session, in order. *)
Fixpoint faviconEffects (themes : list string) (head body : list node)
  : option (list node) :=
  match themes with
  | [] => Some head
  | theme :: rest =>
      match faviconEffect theme head body with
      | Some head' => faviconEffects rest head' body
      | None => None
      end
  end.

End App.

(** ** ParticleBackground.js *)

Module ParticleBackground.

(** [window.innerWidth < 768 ? 40 : 100] *)
Definition countFor (innerWidth : Z) : Z :=
  if (innerWidth <? 768)%Z then 40%Z else 100%Z.

Definition particleColor (theme : string) : string :=
  if String.eqb theme "light" then "#352f44" else "#ccd6f6".

Definition lineColor (theme : string) : string :=
  if String.eqb theme "light" then "#5c5470" else "#8892b0".

(** The fields of the configuration given to [particlesJS] that are not
    constants. *)
Record config : Type := Config {
  number_value : Z;
  color_value : string;
  line_linked_color : string
}.

(** What [initializeParticles] draws: the function is made anew by each run
    of the effect, with the colours and the count of that run. *)
Definition closure (theme : string) (particleCount : Z) : config :=
  Config particleCount (particleColor theme) (lineColor theme).

Record state : Type := State {
  theme : string;
  particleCount : Z;
  (* [window.particlesJS] is defined *)
  particlesJS : bool;
  (* [particlesRef.current] is the container: the component is mounted *)
  container : bool;
  (* [scriptRef.current]: the script element, with what its [onload] draws *)
  scriptRef : option config;
  (* the script elements appended to [head] *)
  scripts : nat;
  (* the calls of [window.particlesJS], the latest first *)
  drawn : list config
}.

Definition initializeParticles (c : config) (st : state) : state :=
  if particlesJS st && container st
  then State (theme st) (particleCount st) (particlesJS st) (container st)
             (scriptRef st) (scripts st) (c :: drawn st)
  else st.

(** The effect on [theme] and [particleCount]. *)
Definition effect (st : state) : state :=
  let c := closure (theme st) (particleCount st) in
  if particlesJS st then initializeParticles c st
  else match scriptRef st with
       | None =>
           State (theme st) (particleCount st) (particlesJS st) (container st)
                 (Some c) (S (scripts st)) (drawn st)
       | Some _ => st
       end.

(** The first render, [loaded] telling whether the library is there
    already, and the first run of the effect. *)
Definition mount (theme : string) (innerWidth : Z) (loaded : bool) : state :=
  effect (State theme (countFor innerWidth) loaded true None 0 []).

Inductive event : Type :=
| ThemeProp (theme : string)
| Resize (innerWidth : Z)
| ScriptLoad
| Unmount.

Definition step (st : state) (e : event) : state :=
  match e with
  | ThemeProp t =>
      if container st && negb (String.eqb t (theme st))
      then effect (State t (particleCount st) (particlesJS st) (container st)
                         (scriptRef st) (scripts st) (drawn st))
      else st
  | Resize innerWidth =>
      let c := countFor innerWidth in
      if container st && negb (c =? particleCount st)%Z
      then effect (State (theme st) c (particlesJS st) (container st)
                         (scriptRef st) (scripts st) (drawn st))
      else st
  | ScriptLoad =>
      match scriptRef st with
      | Some c =>
          if particlesJS st then st
          else initializeParticles c
                 (State (theme st) (particleCount st) true (container st)
                        (scriptRef st) (scripts st) (drawn st))
      | None => st
      end
  | Unmount =>
      State (theme st) (particleCount st) (particlesJS st) false
            (scriptRef st) (scripts st) (drawn st)
  end.

Definition run (st : state) (events : list event) : state :=
  fold_left step events st.

(** A change of the theme or of the width. *)
Definition isChange (e : event) : bool :=
  match e with
  | ThemeProp _ | Resize _ => true
  | ScriptLoad | Unmount => false
  end.

End ParticleBackground.

(** ** What the runs of the particle background keep true *)

Module ParticleInvariants.
Import ParticleBackground.

(** Of the script: none when the library was there at the first render,
    one otherwise, kept in [scriptRef]. *)
Definition scriptOnce (loaded : bool) (st : state) : Prop :=
  if loaded
  then particlesJS st = true /\ scriptRef st = None /\ scripts st = 0
  else is_Some (scriptRef st) /\ scripts st = 1.

(** While the script is loading: nothing drawn, and the script holds what
    the first run of the effect made. *)
Definition loading (first : config) (st : state) : Prop :=
  particlesJS st = false /\ container st = true /\
  scriptRef st = Some first /\ drawn st = [].

(** With the library there: the latest drawing is that of the current
    theme and count. *)
Definition fresh (st : state) : Prop :=
  particlesJS st = true /\ container st = true /\
  exists earlier,
    drawn st = closure (theme st) (particleCount st) :: earlier.

End ParticleInvariants.

(** ** Experience.js: the tabs of the work history *)

Module Experience.

Record job : Type := Job {
  company : string;
  title : string;
  date : string;
  description : list string
}.

Definition jobs : list job :=
  [Job "Keep Scotland Beautiful" "Software Engineer Placement"
       "Jul 2025 - Aug 2025"
       ["Established GitHub repository for project collaboration.";
        ("Downloaded essential software including WebStorm, Android "
            +:+ "Studio, and Expo Orbit for Android emulation.");
        ("Developed initial app framework, incorporating multiple "
            +:+ "pages aligned with design specifications.");
        ("Refined app design by integrating necessary fonts and "
            +:+ "icons.");
        "Implemented login functionality using Google Firebase";
        ("Resolved camera recording error by adjusting CameraView "
            +:+ "properties.");
        ("Optimised code efficiency, reducing build time from "
            +:+ "approximately 2 minutes to 30 seconds.");
        ("Ensured compliance with KSB branding in styling and "
            +:+ "content.")];
   Job "Cineworld" "Team Member"
       "Feb 2022 - Present"
       [("Streamlined cinema operations through precise ticket "
            +:+ "verification and seating coordination.");
        ("Implemented food safety protocols to uphold hygiene "
            +:+ "standards.");
        ("Organised new film showings collaboratively to maximise "
            +:+ "customer satisfaction.");
        ("Coordinated concessions and maintained inventory records "
            +:+ "for efficient operations.");
        ("Resolved guest concerns to deliver exceptional service "
            +:+ "standards.");
        ("Delivered excellent customer service, reinforcing business "
            +:+ "reputation.");
        ("Demonstrated adherence to proper food handling and safety "
            +:+ "standards.")];
   Job "JD Sports" "Sales Assistant"
       "Oct 2019 - Feb 2022"
       [("Delivered exceptional customer service by providing "
            +:+ "tailored product recommendations and resolving inquiries "
            +:+ "promptly to ensure high satisfaction levels.");
        "Took in store delivery's and put the received stock away.";
        "Learned how to work efficiently as a team.";
        ("Fostered positive customer relationships through attentive "
            +:+ "service, product knowledge, and personalised shopping "
            +:+ "assistance to enhance customer satisfaction.")];
   Job "Forth Valley College" "IT Department Intern"
       "Jun 2019 - Jul 2019"
       [("Developed comprehensive training documentation to enhance "
            +:+ "self-guided learning and user accessibility.");
        ("Led Windows 10 deployment across Learning Resource Centre, "
            +:+ "overseeing system upgrades for operational continuity.");
        ("Delivered end-of-internship presentation highlighting "
            +:+ "project outcomes and technical achievements to key "
            +:+ "stakeholders.")]].

(** What is rendered: a button per job, with the class [active] or not, and
    the details of the active job. *)
Record view : Type := View {
  buttons : list (string * bool);
  heading : string * string;
  dateLine : string;
  points : list string
}.

(** The component for a list of jobs and the index in its state; [None] is
    the TypeError of [jobs[activeJobIndex].title] on [undefined]. *)
Definition render (jobs : list job) (activeJobIndex : nat) : option view :=
  match jobs !! activeJobIndex with
  | None => None
  | Some active =>
      Some (View (imap (fun index job =>
                          (company job, Nat.eqb index activeJobIndex)) jobs)
                 (title active, company active) (date active)
                 (description active))
  end.

(** [useState(0)], and [setActiveJobIndex(index)] for each click, on the
    button of [index]. *)
Definition afterClicks (clicks : list nat) : nat :=
  fold_left (fun _ index => index) clicks 0.

End Experience.

(** ** Projects.js: what the component renders *)

Module ProjectsView.
Import JS Projects.

(** The top of a card: the carousel of the images, each with its [alt], or
    the name of the repository. *)
Inductive cardTop : Type :=
| Carousel (slides : list (string * string))
| NamePlaceholder (name : string).

Record card : Type := Card {
  key : Z;
  top : cardTop;
  heading : string;
  text : string;
  languagesUrl : string;
  stars : Z;
  forksShown : Z
}.

Inductive view : Type :=
| Loader
| Grid (cards : list card).

Definition decimal (n : nat) : string :=
  NilEmpty.string_of_uint (Nat.to_uint n).

(** [<img src={url} alt={`${repo.name} preview ${i + 1}`} />] *)
Definition slide (r : repo) (i : nat) (url : string) : string * string :=
  (url, name r +:+ " preview " +:+ decimal (i + 1)).

Definition renderCard (rw : repoWithImages) : card :=
  let repo := summary rw in
  Card (repo_id repo)
       (match imageUrls rw with
        | [] => NamePlaceholder (name repo)
        | urls => Carousel (imap (slide repo) urls)
        end)
       (name repo)
       (or_else (description repo) "No description provided.")
       (languages_url repo) (stargazers_count repo) (forks_count repo).

Definition render (st : state) : view :=
  if loading st then Loader else Grid (map renderCard (repos st)).

End ProjectsView.

(** ** The detail view over the openings of a session *)

Module Openings.
Import Http ProjectModal.




End Openings.

(** ** More example data *)

Module Samples.
Import Dom.

(** The children of a [head] with a favicon between two other elements. *)
Definition indexHead : list node :=
  [Element "meta" [("charset", "utf-8")] [];
   Element "link" [("id", "favicon"); ("rel", "icon");
                   ("href", "/favicon-dark.ico")] [];
   Element "title" [] [Text "Tyler Bravin"]].

(** A readme with a relative link, an image inside a paragraph and a
    video. *)
Definition guide : list node :=
  [Element "p" []
           [Text "See ";
            Element "a" [("href", "docs/guide.md")] [Text "the guide"];
            Element "img" [("alt", "Shot"); ("src", "./assets/Website.png")]
                    []];
   Element "video" [("src", "assets/demo.mp4")] []].

(** The same readme after the loop of the detail view, for the repository
    of the site. *)
Definition guideFixed : list node :=
  [Element "p" []
           [Text "See ";
            Element "a" [("href", "docs/guide.md")] [Text "the guide"];
            Element "img"
                    [("alt", "Shot");
                     ("src", "https://raw.githubusercontent.com/tyler-bravin/Portfolio-Website/main/assets/Website.png")]
                    []];
   Element "video" [("src", "assets/demo.mp4")] []].

End Samples.

(** * Properties *)

(** ** JavaScript strings and arrays *)

Module JSFacts.
Import JS.

(** Case analysis on the eight bits of a character. *)
Ltac by_char c :=
  destruct c as [[] [] [] [] [] [] [] []]; first [reflexivity | done].

Lemma append_cons (c : ascii) (s t : string) :
  String c s +:+ t = String c (s +:+ t).
Proof. reflexivity. Qed.

Lemma append_nil (t : string) : "" +:+ t = t.
Proof. reflexivity. Qed.

Lemma startsWith_append (p rest : string) : startsWith (p +:+ rest) p = true.
Proof.
  induction p as [|c p IH]; simpl.
  - by destruct rest.
  - by rewrite Ascii.eqb_refl.
Qed.

Lemma startsWith_inv (s p : string) :
  startsWith s p = true -> exists rest, s = p +:+ rest.
Proof.
  revert s; induction p as [|c p IH]; intros s Hs.
  - by exists s.
  - destruct s as [|d s]; simpl in Hs; [done|].
    destruct (Ascii.eqb_spec c d) as [->|]; [|done].
    destruct (IH _ Hs) as [rest ->]. by exists rest.
Qed.

Lemma startsWith_spec (s p : string) :
  startsWith s p = true <-> exists rest, s = p +:+ rest.
Proof.
  split; [apply startsWith_inv|].
  intros [rest ->]. apply startsWith_append.
Qed.

Lemma append_assoc (a b c : string) : (a +:+ b) +:+ c = a +:+ (b +:+ c).
Proof.
  induction a as [|x a IH]; [done|]. by rewrite !append_cons, IH.
Qed.

Lemma includes_unfold (s sub : string) :
  includes s sub
  = if startsWith s sub then true
    else match s with
         | EmptyString => false
         | String _ s' => includes s' sub
         end.
Proof. by destruct s. Qed.

Lemma includes_here (s sub : string) :
  startsWith s sub = true -> includes s sub = true.
Proof. intros H. by rewrite includes_unfold, H. Qed.

(** [includes] decides the occurrence of the search string. *)
Lemma includes_spec (s sub : string) :
  includes s sub = true <->
  exists before after, s = before +:+ sub +:+ after.
Proof.
  split.
  - induction s as [|c s IH]; rewrite includes_unfold;
      destruct (startsWith _ sub) eqn:E; try done.
    + intros _. apply startsWith_inv in E as [rest E]. by exists "", rest.
    + intros _. apply startsWith_inv in E as [rest E]. by exists "", rest.
    + intros H. destruct (IH H) as (before & after & ->).
      by exists (String c before), after.
  - intros (before & after & ->).
    induction before as [|c before IH].
    + rewrite append_nil. apply includes_here, startsWith_append.
    + rewrite append_cons, includes_unfold, IH.
      by destruct (startsWith _ sub).
Qed.

Lemma replace_leading_dot_slash_stripped (s : string) :
  replace_leading_dot_slash s = Spec.stripped s.
Proof.
  destruct s as [|c s]; [reflexivity|].
  destruct (ascii_dec c "/") as [->|Hslash]; [reflexivity|].
  destruct (ascii_dec c ".") as [->|Hdot].
  - destruct s as [|d s]; [reflexivity|].
    destruct (ascii_dec d "/") as [->|Hd]; [reflexivity|].
    by_char d.
  - by_char c.
Qed.

Lemma or_else_branch (branch : option string) :
  or_else branch "main"
  = match branch with
    | Some b => if String.eqb b "" then "main" else b
    | None => "main"
    end.
Proof. by destruct branch as [[|c b]|]. Qed.

(** [slice(0, n)] is the prefix of length [n]. *)
Lemma slice_prefix {A} (n : nat) (l : list A) :
  slice 0 (Z.of_nat n) l = take n l.
Proof.
  unfold slice, relative_index.
  destruct (Z.ltb_spec (Z.of_nat n) 0) as [?|_]; [lia|].
  change (0 <? 0)%Z with false. cbv iota.
  rewrite (Z.min_l 0) by lia. rewrite Z.sub_0_r.
  change (Z.to_nat 0) with 0%nat. rewrite drop_0.
  destruct (Z.min_spec (Z.of_nat n) (Z.of_nat (length l))) as [[? ->]|[? ->]];
    rewrite Nat2Z.id; [done|].
  rewrite !take_ge; [done|lia..].
Qed.

End JSFacts.

(** ** The repository lister *)

Module ListerFacts.
Import JS Projects.

Lemma selectRepos_take (reposData : list repo) :
  selectRepos reposData = take 6 (List.filter Spec.nonFork reposData).
Proof. unfold selectRepos. apply (JSFacts.slice_prefix 6). Qed.

Lemma filter_sublist {A} (f : A -> bool) (l : list A) :
  sublist (List.filter f l) l.
Proof.
  induction l as [|x l IH]; simpl; [constructor|].
  destruct (f x); by constructor.
Qed.

(** C2: the lister removes the forks, then keeps the first six of what is
    left, in the order received: it is the prefix of length six of the
    non-forks, so it has at most six items, none a fork, in the order of
    the response; and with eight non-forks in the response (and any number
    of forks, two in particular) it is exactly the first six non-forks. *)
Theorem lister_filters_then_truncates (reposData : list repo) :
  let nonForks := List.filter Spec.nonFork reposData in
  selectRepos reposData = take 6 nonForks /\
  length (selectRepos reposData) = Nat.min 6 (length nonForks) /\
  Forall (fun r => fork r = false) (selectRepos reposData) /\
  sublist (selectRepos reposData) reposData /\
  (length nonForks = 8 ->
   length (List.filter fork reposData) = 2 ->
   length reposData = 10 /\
   length (selectRepos reposData) = 6 /\
   forall i, i < 6 -> selectRepos reposData !! i = nonForks !! i).
Proof.
  intros nonForks. rewrite selectRepos_take. fold nonForks.
  split; [done|]. split; [apply length_take|].
  split.
  { apply Forall_take, Forall_forall. intros r Hr.
    apply list_elem_of_In, filter_In in Hr as [_ Hr].
    unfold Spec.nonFork in Hr. by destruct (fork r). }
  split.
  { etrans; [apply sublist_take|apply filter_sublist]. }
  intros H8 H2. split; [|split].
  - pose proof (List.filter_length fork reposData) as Hlen.
    unfold nonForks, Spec.nonFork in H8. lia.
  - rewrite length_take. lia.
  - intros i Hi. by apply lookup_take_lt.
Qed.

Lemma lister_example :
  map repo_id (selectRepos Examples.tenRepos) = [1; 3; 4; 5; 7; 8]%Z /\
  length (selectRepos Examples.tenRepos) = 6.
Proof.
  destruct (lister_filters_then_truncates Examples.tenRepos) as (Heq & _ & _ & _ & H).
  destruct H as (_ & Hlen & _); [reflexivity|reflexivity|].
  split; [by rewrite Heq|exact Hlen].
Defined.

End ListerFacts.

(** ** The rewrite of image sources *)

Module RewriteFacts.
Import JS Dom.

Lemma length_append (a b : string) :
  String.length (a +:+ b) = String.length a + String.length b.
Proof.
  induction a as [|c a IH]; [done|].
  rewrite JSFacts.append_cons. simpl. by rewrite IH.
Qed.

Lemma concat_segments (a b c d e : string) :
  String.concat "/" [a; b; c; d; e]
  = a +:+ "/" +:+ b +:+ "/" +:+ c +:+ "/" +:+ d +:+ "/" +:+ e.
Proof. reflexivity. Qed.

(** X2: in the detail view, a source that does not start with [http] is
    given the raw-content URL of the specification: owner, name, default
    branch or [main], and the source without a leading [./] or [/]. *)
Lemma detail_rewrite_relative (r : repo) (src : string) :
  startsWith src "http" = false ->
  ProjectModal.rewriteSrc r src
  = Spec.rawContentUrl (owner_login r) (name r) (default_branch r) src.
Proof.
  intros H. unfold ProjectModal.rewriteSrc, ProjectModal.correctedSrc.
  rewrite H. cbv [negb]. unfold Spec.rawContentUrl.
  rewrite concat_segments, JSFacts.or_else_branch,
    JSFacts.replace_leading_dot_slash_stripped.
  reflexivity.
Qed.

Lemma detail_rewrite_relative_example :
  ProjectModal.rewriteSrc Examples.portfolio "./assets/Website.png"
  = Spec.rawContentUrl "tyler-bravin" "Portfolio-Website" (Some "main")
                       "./assets/Website.png".
Proof.
  exact (detail_rewrite_relative Examples.portfolio "./assets/Website.png"
                                 eq_refl).
Defined.

(** The detail view: a source that starts with [http] is left as it is. *)
Lemma detail_rewrite_absolute (r : repo) (src : string) :
  startsWith src "http" = true -> ProjectModal.rewriteSrc r src = src.
Proof. intros H. unfold ProjectModal.rewriteSrc. by rewrite H. Qed.

Lemma correctedSrc_absolute (r : repo) (src : string) :
  startsWith (ProjectModal.correctedSrc r src) "http" = true.
Proof. reflexivity. Qed.

(** X1: in the detail view, rewriting a source that was rewritten changes
    nothing. *)
Lemma detail_rewrite_idempotent (r : repo) (src : string) :
  ProjectModal.rewriteSrc r (ProjectModal.rewriteSrc r src)
  = ProjectModal.rewriteSrc r src.
Proof.
  destruct (startsWith src "http") eqn:E.
  - by rewrite !(detail_rewrite_absolute r src E).
  - assert (ProjectModal.rewriteSrc r src = ProjectModal.correctedSrc r src)
      as -> by (unfold ProjectModal.rewriteSrc; by rewrite E).
    apply detail_rewrite_absolute, correctedSrc_absolute.
Qed.

(** The list: a source that does not start with [./] is given the URL of
    the specification for a relative path, whether it is one or not. *)
Lemma list_rewrite_no_dot (r : repo) (src : string) :
  startsWith src "./" = false ->
  Projects.rawUrl r src
  = Spec.rawContentUrl Projects.GITHUB_USERNAME (name r) (default_branch r)
                       src.
Proof.
  intros H. unfold Projects.rawUrl, Spec.rawContentUrl.
  rewrite concat_segments, JSFacts.or_else_branch.
  assert (replace_leading_slash src = Spec.stripped src) as ->; [|done].
  unfold Spec.stripped. rewrite H.
  destruct src as [|c src]; [done|].
  destruct (ascii_dec c "/") as [->|Hslash]; [reflexivity|].
  JSFacts.by_char c.
Qed.

Lemma rawUrl_base (r : repo) (src : string) :
  Projects.rawUrl r src = Projects.rawBase r +:+ replace_leading_slash src.
Proof.
  unfold Projects.rawUrl, Projects.rawBase. by rewrite !JSFacts.append_assoc.
Qed.

(** C1: the list does not follow the rule on the sources it retains.  The
    image of the readme of this very repository, [./assets/Website.png],
    keeps its [./] in the URL, and a source that is an absolute URL already
    (here an attachment, whose URL has the segment [/assets/]) is put behind
    the raw-content prefix; the detail view gives both the source the rule
    asks for. *)
Theorem list_rewrite_diverges :
  let readme := [Examples.img "./assets/Website.png";
                 Examples.img "https://github.com/user-attachments/assets/0a1b2c3d"] in
  List.filter Projects.fromAssets readme = readme /\
  Projects.extractUrls Examples.portfolio readme
  = Some ["https://raw.githubusercontent.com/tyler-bravin/Portfolio-Website/main/./assets/Website.png";
          "https://raw.githubusercontent.com/tyler-bravin/Portfolio-Website/main/https://github.com/user-attachments/assets/0a1b2c3d"] /\
  Spec.rawContentUrl "tyler-bravin" "Portfolio-Website" (Some "main")
                     "./assets/Website.png"
  = "https://raw.githubusercontent.com/tyler-bravin/Portfolio-Website/main/assets/Website.png" /\
  ProjectModal.fixImages Examples.portfolio readme
  = Some [Examples.img "https://raw.githubusercontent.com/tyler-bravin/Portfolio-Website/main/assets/Website.png";
          Examples.img "https://github.com/user-attachments/assets/0a1b2c3d"].
Proof. repeat split; reflexivity. Qed.

(** C4: in the list, the rewrite of a URL it produced is not that URL: the
    raw-content prefix is put in front of it once more. *)
Theorem list_rewrite_not_idempotent (r : repo) (src : string) :
  Projects.rawUrl r (Projects.rawUrl r src)
  = Projects.rawBase r +:+ Projects.rawUrl r src /\
  Projects.rawUrl r (Projects.rawUrl r src) <> Projects.rawUrl r src /\
  Projects.rawUrl Examples.portfolio
    "https://raw.githubusercontent.com/tyler-bravin/Portfolio-Website/main/assets/Website.png"
  = "https://raw.githubusercontent.com/tyler-bravin/Portfolio-Website/main/https://raw.githubusercontent.com/tyler-bravin/Portfolio-Website/main/assets/Website.png".
Proof.
  assert (Projects.rawUrl r (Projects.rawUrl r src)
          = Projects.rawBase r +:+ Projects.rawUrl r src) as Heq.
  { rewrite (rawUrl_base r (Projects.rawUrl r src)). f_equal. }
  split; [exact Heq|]. split; [|reflexivity].
  rewrite Heq. intros Habs. apply (f_equal String.length) in Habs.
  rewrite length_append in Habs.
  assert (0 < String.length (Projects.rawBase r)) by (unfold Projects.rawBase; simpl; lia).
  lia.
Qed.

End RewriteFacts.

(** ** The image filter of the list *)

Module FilterFacts.
Import JS Dom Http Projects.

Lemma fromAssets_spec (img : node) :
  fromAssets img = true <-> Spec.qualifies img.
Proof.
  unfold fromAssets, Spec.qualifies, Spec.inAssets.
  destruct (getAttribute img "src") as [src|]; simpl.
  - destruct src as [|c src].
    + split; [done|]. intros (src & [= <-] & before & after & E).
      destruct before; discriminate E.
    + rewrite JSFacts.includes_spec. split.
      * intros H. by exists (String c src).
      * by intros (? & [= <-] & H).
  - split; [done|]. by intros (? & [=] & _).
Qed.

Lemma fromAssets_src (img : node) :
  fromAssets img = true -> is_Some (getAttribute img "src").
Proof. intros H. apply fromAssets_spec in H as (src & -> & _). by eexists. Qed.

(** After the filter, the callback of [map] throws on no image. *)
Lemma extractUrls_retained (r : repo) (images : list node) :
  exists urls,
    extractUrls r images = Some urls /\
    Forall2 (fun img url =>
               exists src, getAttribute img "src" = Some src /\
                           url = rawUrl r src)
            (List.filter fromAssets images) urls.
Proof.
  unfold extractUrls.
  assert (Forall (fun img => fromAssets img = true)
                 (List.filter fromAssets images)) as Hall.
  { apply Forall_forall. intros img Himg.
    by apply list_elem_of_In, filter_In in Himg as [_ ?]. }
  assert (exists urls,
             Forall2 (fun img url => imageUrl r img = Some url)
                     (List.filter fromAssets images) urls) as [urls Hurls].
  { induction Hall as [|img kept Himg _ [urls IH]].
    - exists []. constructor.
    - destruct (fromAssets_src img Himg) as [src Hsrc].
      exists (rawUrl r src :: urls). constructor; [|done].
      unfold imageUrl. by rewrite Hsrc. }
  exists urls. split; [by apply mapM_Some_2|].
  eapply Forall2_impl; [exact Hurls|].
  intros img url. unfold imageUrl.
  destruct (getAttribute img "src") as [src|]; [|done].
  intros [= <-]. by exists src.
Qed.

Lemma filter_partition_length {A} (f : A -> bool) (l : list A) :
  length (List.filter f l) + length (List.filter (fun x => negb (f x)) l)
  = length l.
Proof.
  induction l as [|x l IH]; [done|]. simpl.
  destruct (f x); simpl; lia.
Qed.

(** C3: on a readme that was fetched, the images kept are exactly the
    images of the document whose [src] is there and contains [/assets/],
    in the order of the document; one URL is returned for each of them, in
    that order, and none for the others (so two URLs for two qualifying
    images among five). *)
Theorem list_image_filter `{DomApi} (r : repo) (readmeHtml : string) :
  let images := querySelectorAll_img (parseHTML readmeHtml) in
  let kept := List.filter fromAssets images in
  let urls := imageUrls (withImages r (Response true (Body readmeHtml))) in
  (forall img, img ∈ kept <-> img ∈ images /\ Spec.qualifies img) /\
  sublist kept images /\
  Forall2 (fun img url =>
             exists src, getAttribute img "src" = Some src /\
                         url = rawUrl r src) kept urls /\
  length urls + length (List.filter (fun i => negb (fromAssets i)) images)
  = length images.
Proof.
  intros images kept urls.
  destruct (extractUrls_retained r images) as (found & Hfound & Hall).
  assert (urls = found) as ->.
  { unfold urls, withImages. simpl. fold images. by rewrite Hfound. }
  split.
  { intros img. unfold kept. rewrite !list_elem_of_In, filter_In.
    by rewrite fromAssets_spec. }
  split; [apply ListerFacts.filter_sublist|].
  split; [exact Hall|].
  rewrite <- (Forall2_length _ _ _ Hall).
  apply filter_partition_length.
Qed.

End FilterFacts.

(** ** The readme fetcher of the detail view *)

Module DetailFacts.
Import JS Dom Http ProjectModal.

(** Induction on trees, the children of an element satisfying the
    property. *)
Lemma node_tree_ind (P : node -> Prop) :
  (forall data, P (Text data)) ->
  (forall tag attrs children,
      Forall P children -> P (Element tag attrs children)) ->
  forall n, P n.
Proof.
  intros HText HElement. fix IH 1. intros [data|tag attrs children].
  - apply HText.
  - apply HElement. induction children; constructor; [apply IH|assumption].
Qed.

Lemma images_of_element (tag : string) attrs children :
  images_of (Element tag attrs children)
  = (if is_img (Element tag attrs children)
     then [Element tag attrs children] else [])
      ++ querySelectorAll_img children.
Proof. reflexivity. Qed.

Lemma fixNode_element (r : repo) (tag : string) attrs children :
  fixNode r (Element tag attrs children)
  = match (if is_img (Element tag attrs children)
           then fixImage r (Element tag attrs children)
           else Some (Element tag attrs children)) with
    | None => None
    | Some n' =>
        match fixImages r children with
        | None => None
        | Some children' => Some (withChildren n' children')
        end
    end.
Proof. reflexivity. Qed.

Lemma elem_of_querySelectorAll (img : node) (children : list node) :
  img ∈ querySelectorAll_img children <->
  exists child, child ∈ children /\ img ∈ images_of child.
Proof.
  unfold querySelectorAll_img. rewrite list_elem_of_In, in_flat_map.
  split; intros (child & ? & ?); exists child;
    by rewrite ?list_elem_of_In in *.
Qed.

(** An image without [src] anywhere in the tree makes the loop fault. *)
Lemma fixNode_missing_src (r : repo) (n img : node) :
  img ∈ images_of n -> getAttribute img "src" = None -> fixNode r n = None.
Proof.
  intros Himg Hsrc. revert Himg.
  induction n as [data|tag attrs children IH] using node_tree_ind.
  - by intros ?%elem_of_nil.
  - rewrite images_of_element, fixNode_element, elem_of_app.
    intros [Hhere|Hbelow].
    + destruct (is_img (Element tag attrs children));
        [|by apply elem_of_nil in Hhere].
      apply list_elem_of_singleton in Hhere as ->.
      unfold fixImage. by rewrite Hsrc.
    + assert (fixImages r children = None) as ->.
      { apply mapM_None_2.
        apply elem_of_querySelectorAll in Hbelow as (child & Hchild & Hin).
        rewrite Forall_forall in IH. apply Exists_exists.
        exists child. split; [done|]. by apply IH. }
      by destruct (if is_img _ then _ else _).
Qed.

Lemma fixImages_missing_src (r : repo) (children : list node) (img : node) :
  img ∈ querySelectorAll_img children ->
  getAttribute img "src" = None ->
  fixImages r children = None.
Proof.
  intros (child & Hchild & Hin)%elem_of_querySelectorAll Hsrc.
  apply mapM_None_2, Exists_exists. exists child.
  split; [done|]. by eapply fixNode_missing_src.
Qed.

(** C10: when an image of the fetched document has no [src], the document
    published by the detail view is the placeholder, whatever the status of
    the response and whatever the other images are; the request that
    settles so leaves the component with the placeholder and not
    loading. *)
Theorem detail_missing_src_placeholder `{DomApi} (r : repo) (ok : bool)
        (html : string) (img : node) :
  img ∈ querySelectorAll_img (parseHTML html) ->
  getAttribute img "src" = None ->
  fetchReadme r (Response ok (Body html)) = placeholder /\
  forall (st : state) (request : nat),
    request_of request (inflight st) = Some r ->
    readmeHtml (step st (Settled request (Response ok (Body html))))
    = placeholder /\
    loading (step st (Settled request (Response ok (Body html)))) = false.
Proof.
  intros Himg Hsrc.
  assert (fetchReadme r (Response ok (Body html)) = placeholder) as Hdoc.
  { unfold fetchReadme. by rewrite (fixImages_missing_src r _ img). }
  split; [exact Hdoc|].
  intros st request Hreq. unfold step. rewrite Hreq.
  cbn [readmeHtml loading]. by rewrite Hdoc.
Qed.

End DetailFacts.

Module TraversalFacts.
Import JS Dom Http ProjectModal.

Lemma lookup_update_attribute (name value : string) attrs :
  lookup_attribute name (update_attribute name value attrs) = Some value.
Proof.
  induction attrs as [|[k v] attrs IH]; simpl.
  - by rewrite String.eqb_refl.
  - destruct (String.eqb k name) eqn:E; simpl; by rewrite E.
Qed.

(** On an image with a source, the callback of the loop sets the source
    to its rewrite and changes nothing else. *)
Lemma fixImage_source (r : repo) (tag : string) attrs children (src : string) :
  lookup_attribute "src" attrs = Some src ->
  exists attrs',
    fixImage r (Element tag attrs children)
    = Some (Element tag attrs' children) /\
    lookup_attribute "src" attrs' = Some (rewriteSrc r src).
Proof.
  intros Hsrc. unfold fixImage, rewriteSrc. cbn [getAttribute].
  rewrite Hsrc. destruct (startsWith src "http"); cbn [negb setAttribute].
  - by exists attrs.
  - eexists. split; [done|]. apply lookup_update_attribute.
Qed.

Lemma sources_app (l1 l2 : list node) :
  sources (l1 ++ l2) = sources l1 ++ sources l2.
Proof. apply map_app. Qed.

Lemma fixImages_rewritten (r : repo) (children : list node) :
  Forall (rewritten r) children ->
  Forall (fun img => is_Some (getAttribute img "src"))
         (querySelectorAll_img children) ->
  exists children',
    fixImages r children = Some children' /\
    sources (querySelectorAll_img children')
    = map (fmap (rewriteSrc r)) (sources (querySelectorAll_img children)).
Proof.
  intros IH. unfold fixImages.
  induction IH as [|child children Hchild _ IH]; intros Hsrc.
  - by exists [].
  - change (querySelectorAll_img (child :: children))
      with (images_of child ++ querySelectorAll_img children) in *.
    apply Forall_app in Hsrc as [Hhere Hrest].
    destruct (Hchild Hhere) as (child' & Hfix & Hsources).
    destruct (IH Hrest) as (children' & Hfixes & Hsources').
    exists (child' :: children'). split.
    + apply mapM_Some_2. constructor; [done|]. by apply mapM_Some_1.
    + change (querySelectorAll_img (child' :: children'))
        with (images_of child' ++ querySelectorAll_img children').
      by rewrite !sources_app, map_app, Hsources, Hsources'.
Qed.

Lemma fixNode_rewritten (r : repo) (n : node) : rewritten r n.
Proof.
  induction n as [data|tag attrs children IH] using DetailFacts.node_tree_ind.
  - intros _. by exists (Text data).
  - intros Hsrc.
    rewrite DetailFacts.images_of_element in Hsrc.
    apply Forall_app in Hsrc as [Hhere Hbelow].
    destruct (fixImages_rewritten r children IH Hbelow)
      as (children' & Hfix & Hsources).
    rewrite DetailFacts.fixNode_element, Hfix.
    destruct (is_img (Element tag attrs children)) eqn:Himg.
    + apply Forall_inv in Hhere as [src Hsrc].
      destruct (fixImage_source r tag attrs children src Hsrc)
        as (attrs' & -> & Hsrc').
      exists (Element tag attrs' children'). split; [done|].
      rewrite !DetailFacts.images_of_element.
      change (is_img (Element tag attrs' children'))
        with (is_img (Element tag attrs children)).
      rewrite Himg, !sources_app, map_app, Hsources.
      f_equal. simpl in *. by rewrite Hsrc, Hsrc'.
    + exists (Element tag attrs children'). split; [done|].
      rewrite !DetailFacts.images_of_element.
      change (is_img (Element tag attrs children'))
        with (is_img (Element tag attrs children)).
      by rewrite Himg.
Qed.

(** X3: the detail view on a document all of whose images have a source:
    the loop does not fault, and the document published is the document
    fetched with the source of every image rewritten, in place and in the
    order of the document. *)
Lemma detail_rewrites_every_image `{DomApi} (r : repo) (ok : bool)
      (html : string) :
  Forall (fun img => is_Some (getAttribute img "src"))
         (querySelectorAll_img (parseHTML html)) ->
  exists children,
    fixImages r (parseHTML html) = Some children /\
    fetchReadme r (Response ok (Body html)) = innerHTML children /\
    sources (querySelectorAll_img children)
    = map (fmap (rewriteSrc r))
          (sources (querySelectorAll_img (parseHTML html))).
Proof.
  intros Hsrc.
  destruct (fixImages_rewritten r (parseHTML html)) as (children & Hfix & Hs).
  - apply Forall_forall. intros n _. apply fixNode_rewritten.
  - done.
  - exists children. unfold fetchReadme. by rewrite Hfix.
Qed.

Lemma screenshot_rewritten :
  exists children,
    fixImages Examples.portfolio Examples.screenshotNodes = Some children /\
    fetchReadme (H := Examples.browser Examples.pages) Examples.portfolio
                (Response true (Body Examples.screenshot))
    = innerHTML (DomApi := Examples.browser Examples.pages) children /\
    sources (querySelectorAll_img children)
    = [Some "https://raw.githubusercontent.com/tyler-bravin/Portfolio-Website/main/assets/Website.png"].
Proof.
  apply (detail_rewrites_every_image (H := Examples.browser Examples.pages)
           Examples.portfolio true Examples.screenshot).
  repeat constructor. by eexists.
Defined.

End TraversalFacts.

(** ** The language tagger *)

Module TaggerFacts.
Import JS Http RepoLanguages.

Lemma own_keys_no_index (keys : list string) :
  Forall (fun k => array_index k = None) keys -> own_keys keys = keys.
Proof.
  intros Hkeys. unfold own_keys.
  assert (omap array_index keys = []) as ->.
  { induction Hkeys as [|k keys Hk _ IH]; [done|].
    simpl. by rewrite Hk. }
  simpl. induction Hkeys as [|k keys Hk _ IH]; [done|].
  simpl. unfold is_index at 1. rewrite Hk. simpl. by rewrite IH.
Qed.

(** A rejected request, a body that cannot be decoded and a body that
    decodes to [null] leave the tags as they were: no tag on the first run
    of the effect. *)
Lemma tagger_rejections_keep_state (languages : list string) (ok : bool) :
  fetchLanguages languages FetchRejects = languages /\
  fetchLanguages languages (Response ok BodyRejects) = languages /\
  fetchLanguages languages (Response ok (Body JNull)) = languages.
Proof. done. Qed.

(** C7, as the code has it: for a decoded mapping none of whose keys is an
    array index, the tags are the first three keys in the order of the
    response, fewer when the mapping has fewer; the mapping of the example
    gives TypeScript, CSS, HTML; the empty mapping gives no tag, and the
    component renders nothing. *)
Theorem tagger_first_three (languages : list string)
        (mapping : list (string * json)) :
  Forall (fun k => array_index k = None) (map fst mapping) ->
  fetchLanguages languages (Response true (Body (JObject mapping)))
  = Spec.firstThreeKeys mapping /\
  length (fetchLanguages languages (Response true (Body (JObject mapping))))
  = Nat.min 3 (length mapping) /\
  fetchLanguages languages
    (Response true (Body (JObject [("TypeScript", JNumber 500);
                                   ("CSS", JNumber 200);
                                   ("HTML", JNumber 100);
                                   ("Shell", JNumber 10)])))
  = ["TypeScript"; "CSS"; "HTML"] /\
  fetchLanguages languages (Response true (Body (JObject []))) = [] /\
  render [] = None.
Proof.
  intros Hkeys.
  assert (fetchLanguages languages (Response true (Body (JObject mapping)))
          = Spec.firstThreeKeys mapping) as Heq.
  { unfold fetchLanguages, Object_keys. rewrite (own_keys_no_index _ Hkeys).
    apply (JSFacts.slice_prefix 3). }
  split; [exact Heq|]. split; [|done].
  rewrite Heq. unfold Spec.firstThreeKeys.
  by rewrite length_take, length_map.
Qed.

Lemma tagger_first_three_example :
  fetchLanguages []
    (Response true (Body (JObject [("JavaScript", JNumber 9000);
                                   ("CSS", JNumber 4000)])))
  = ["JavaScript"; "CSS"].
Proof.
  refine (proj1 (tagger_first_three []
                   [("JavaScript", JNumber 9000); ("CSS", JNumber 4000)] _)).
  repeat constructor.
Defined.

(** C7 as stated fails on a key that is an array index: such keys come
    first in [Object.keys], wherever they are in the response. *)
Lemma tagger_index_keys_first :
  fetchLanguages []
    (Response true (Body (JObject [("b", JNumber 1); ("1", JNumber 2)])))
  = ["1"; "b"] /\
  Spec.firstThreeKeys [("b", JNumber 1); ("1", JNumber 2)] = ["b"; "1"].
Proof. split; reflexivity. Qed.

(** C8: the status of the response is not looked at.  The reply to a
    request with bad credentials (status 401) has a JSON object as its
    body, and the keys of that object become the tags. *)
Theorem tagger_error_body_keys_shown :
  let badCredentials :=
    JObject [("message", JString "Bad credentials");
             ("documentation_url", JString "https://docs.github.com/rest");
             ("status", JString "401")] in
  fetchLanguages initial (Response false (Body badCredentials))
  = ["message"; "documentation_url"; "status"] /\
  render (fetchLanguages initial (Response false (Body badCredentials)))
  = Some ["message"; "documentation_url"; "status"] /\
  forall languages ok data,
    fetchLanguages languages (Response ok (Body data))
    = fetchLanguages languages (Response true (Body data)).
Proof. repeat split; reflexivity. Qed.

End TaggerFacts.

(** ** The detail view over renders and settling requests *)

Module ModalFacts.
Import JS Dom Http ProjectModal.

(** C9, as the code has it: a render with a repository of a new identity
    issues one request and shows the loading text; a render with the same
    identity issues none; without a repository nothing is requested and
    nothing is rendered; and a request that settles publishes its document
    and ends the loading, whichever repository is selected by then. *)
Theorem detail_fetch_last_settled_wins `{DomApi} (st : state) :
  (forall request r readme,
      request_of request (inflight st) = Some r ->
      readmeHtml (step st (Settled request readme)) = fetchReadme r readme /\
      loading (step st (Settled request readme)) = false /\
      selected (step st (Settled request readme)) = selected st) /\
  (forall i r,
      mounted st && same_identity (selected st) (Some (i, r)) = false ->
      inflight (step st (Render (Some (i, r))))
      = inflight st ++ [(issued st, r)] /\
      loading (step st (Render (Some (i, r)))) = true /\
      readmeHtml (step st (Render (Some (i, r)))) = readmeHtml st) /\
  (forall prop,
      mounted st && same_identity (selected st) prop = true ->
      inflight (step st (Render prop)) = inflight st /\
      loading (step st (Render prop)) = loading st /\
      readmeHtml (step st (Render prop)) = readmeHtml st) /\
  (inflight (step st (Render None)) = inflight st /\
   readmeHtml (step st (Render None)) = readmeHtml st /\
   render (step st (Render None)) = None).
Proof.
  split; [|split; [|split]].
  - intros request r readme Hreq. unfold step. by rewrite Hreq.
  - intros i r Hnew. unfold step. by rewrite Hnew.
  - intros prop Hsame. unfold step. by rewrite Hsame.
  - unfold step. by destruct (mounted st && same_identity (selected st) None).
Qed.

(** C9 as stated fails: the request for the first repository settles after
    the one for the second, and its document replaces the document of the
    repository that is selected; so it does when the view was closed in
    between. *)
Lemma stale_readme_overwrites :
  run (H := Examples.browser []) initial
      [Render (Some (1, Examples.alpha)); Render (Some (2, Examples.beta));
       Settled 1 (Response true (Body "About beta"))]
  = State (Some (2, Examples.beta)) true "About beta" false
          [(0, Examples.alpha)] 2 /\
  run (H := Examples.browser []) initial
      [Render (Some (1, Examples.alpha)); Render (Some (2, Examples.beta));
       Settled 1 (Response true (Body "About beta"));
       Settled 0 (Response true (Body "About alpha"))]
  = State (Some (2, Examples.beta)) true "About alpha" false [] 2 /\
  render
    (run (H := Examples.browser []) initial
         [Render (Some (1, Examples.alpha)); Render None;
          Render (Some (2, Examples.beta));
          Settled 1 (Response true (Body "About beta"));
          Settled 0 (Response true (Body "About alpha"))])
  = Some (Document "About alpha").
Proof. repeat split; reflexivity. Qed.

Lemma late_request_publishes :
  readmeHtml
    (step (H := Examples.browser [])
          (State (Some (2, Examples.beta)) true "About beta" false
                 [(0, Examples.alpha)] 2)
          (Settled 0 (Response true (Body "About alpha"))))
  = "About alpha".
Proof.
  refine (proj1 (proj1 (detail_fetch_last_settled_wins
                          (H := Examples.browser []) _)
                       0 Examples.alpha _ _)).
  reflexivity.
Defined.

End ModalFacts.

(** ** The list over the settling of its requests *)

Module BatchFacts.
Import JS Dom Http Projects.

Lemma elem_of_cons_ne (i j : nat) (l : list nat) :
  j <> i -> j ∈ l <-> j ∈ i :: l.
Proof. rewrite elem_of_cons. intuition congruence. Qed.

Lemma elem_of_cons_dup (i j : nat) (l : list nat) :
  i ∈ l -> j ∈ l <-> j ∈ i :: l.
Proof. rewrite elem_of_cons. intuition congruence. Qed.

Section Batch.
Context `{DomApi}.
Variable reposData : list repo.
Variable net : nat -> fetch_result string.

Lemma slotsAfter_lookup (settled : list nat) (j : nat) :
  slotsAfter reposData net settled !! j
  = (fun r => if bool_decide (j ∈ settled)
              then Some (withImages r (net j)) else None) <$> reposData !! j.
Proof. unfold slotsAfter. by rewrite list_lookup_imap. Qed.

Lemma slotsAfter_ext (done1 done2 : list nat) :
  (forall j, j < length reposData -> j ∈ done1 <-> j ∈ done2) ->
  slotsAfter reposData net done1 = slotsAfter reposData net done2.
Proof.
  intros Hsame. apply list_eq. intros j. rewrite !slotsAfter_lookup.
  destruct (reposData !! j) as [r|] eqn:Hj; [|done]. simpl.
  apply lookup_lt_Some in Hj.
  by rewrite (bool_decide_ext _ _ (Hsame j Hj)).
Qed.

Lemma slotsAfter_none :
  slotsAfter reposData net [] = replicate (length reposData) None.
Proof.
  apply list_eq. intros j. rewrite slotsAfter_lookup.
  destruct (reposData !! j) as [r|] eqn:Hj; simpl.
  - apply lookup_lt_Some in Hj. by rewrite lookup_replicate_2.
  - apply lookup_ge_None in Hj. symmetry. by apply lookup_replicate_None.
Qed.

Lemma slotsAfter_insert (settled : list nat) (i : nat) (r : repo) :
  reposData !! i = Some r ->
  <[i := Some (withImages r (net i))]> (slotsAfter reposData net settled)
  = slotsAfter reposData net (i :: settled).
Proof.
  intros Hi. apply list_eq. intros j.
  destruct (decide (i = j)) as [<-|Hne].
  - rewrite list_lookup_insert_eq.
    + rewrite slotsAfter_lookup, Hi. simpl.
      by rewrite bool_decide_true by (apply elem_of_cons; by left).
    + unfold slotsAfter. rewrite length_imap. by eapply lookup_lt_Some.
  - rewrite list_lookup_insert_ne by done. rewrite !slotsAfter_lookup.
    destruct (reposData !! j); [|done]. simpl.
    by rewrite (bool_decide_ext _ _ (elem_of_cons_ne i j settled (not_eq_sym Hne))).
Qed.

(** All slots are filled exactly when every index has settled. *)
Lemma slots_all_settled (settled : list nat) :
  (forall j, j < length reposData -> j ∈ settled) ->
  mapM id (slotsAfter reposData net settled)
  = Some (imap (fun j r => withImages r (net j)) reposData).
Proof.
  intros Hall. apply mapM_Some_2, Forall2_same_length_lookup_2.
  - unfold slotsAfter. by rewrite !length_imap.
  - intros j slot result. rewrite slotsAfter_lookup, list_lookup_imap.
    destruct (reposData !! j) as [r|] eqn:Hj; [|done]. simpl.
    rewrite bool_decide_true by (by eapply Hall, lookup_lt_Some).
    by intros [= <-] [= <-].
Qed.

Lemma slots_pending (settled : list nat) (j : nat) :
  j < length reposData -> j ∉ settled ->
  mapM id (slotsAfter reposData net settled) = None.
Proof.
  intros Hj Hpending. apply mapM_None_2, Exists_exists. exists None.
  split; [|done]. apply list_elem_of_lookup. exists j.
  rewrite slotsAfter_lookup.
  destruct (lookup_lt_is_Some_2 reposData j Hj) as [r ->]. simpl.
  by rewrite bool_decide_false.
Qed.

Lemma slots_settled_inv (settled : list nat) results (j : nat) :
  mapM id (slotsAfter reposData net settled) = Some results ->
  j < length reposData -> j ∈ settled.
Proof.
  intros Hres Hj. destruct (decide (j ∈ settled)) as [|Hpending]; [done|].
  by rewrite (slots_pending settled j) in Hres.
Qed.

(** A readme that settles fills its slot, once. *)
Lemma step_after (settled : list nat) (i : nat) :
  step (after reposData net settled) (ReadmeSettled i (net i))
  = after reposData net (i :: settled).
Proof.
  unfold after, join.
  destruct (mapM id (slotsAfter reposData net settled)) as [results|] eqn:Hs.
  - rewrite <- (slotsAfter_ext settled (i :: settled)), Hs; [done|].
    intros j Hj. pose proof (slots_settled_inv _ _ j Hs Hj) as Hin.
    rewrite elem_of_cons. tauto.
  - unfold step. cbn [stage repos loading initial].
    rewrite slotsAfter_lookup.
    destruct (reposData !! i) as [r|] eqn:Hi; simpl.
    + destruct (decide (i ∈ settled)) as [Hdone|Hnew].
      * rewrite bool_decide_true by done.
        rewrite <- (slotsAfter_ext settled (i :: settled)), Hs; [done|].
        intros j _. by apply elem_of_cons_dup.
      * rewrite bool_decide_false by done.
        unfold join. cbn [repos loading]. by rewrite slotsAfter_insert.
    + rewrite <- (slotsAfter_ext settled (i :: settled)), Hs; [done|].
      intros j Hj. apply lookup_ge_None in Hi.
      apply elem_of_cons_ne. lia.
Qed.

Lemma run_after (schedule settled : list nat) :
  run (after reposData net settled) (settling net schedule)
  = after reposData net (reverse schedule ++ settled).
Proof.
  revert settled. induction schedule as [|i schedule IH]; intros settled.
  - done.
  - unfold run in *. simpl. rewrite step_after, IH.
    by rewrite reverse_cons, <- app_assoc.
Qed.

End Batch.

Lemma run_listing `{DomApi} (ok : bool) (reposData : list repo)
      (net : nat -> fetch_result string) (schedule : list nat) :
  run initial (ListingSettled (Response ok (Body (RepoArray reposData)))
                 :: settling net schedule)
  = after (selectRepos reposData) net (reverse schedule).
Proof.
  unfold run. simpl.
  change (step initial _)
    with (join (selectRepos reposData)
               (replicate (length (selectRepos reposData)) None) initial).
  rewrite <- slotsAfter_none with (net := net).
  fold (after (selectRepos reposData) net []).
  pose proof (run_after (selectRepos reposData) net schedule []) as Hrun.
  unfold run in Hrun. by rewrite Hrun, app_nil_r.
Qed.

(** X6: whatever the order in which the readmes settle, once all of them
    have settled the component is in the state that [fetchReposAndImages]
    gives: the repositories selected from the listing, each with the images
    of its own readme, and loading ended. *)
Lemma run_fetchReposAndImages `{DomApi} (ok : bool) (reposData : list repo)
      (net : nat -> fetch_result string) (schedule : list nat) :
  (forall j, j < length (selectRepos reposData) -> j ∈ schedule) ->
  run initial (ListingSettled (Response ok (Body (RepoArray reposData)))
                 :: settling net schedule)
  = fetchReposAndImages (Response ok (Body (RepoArray reposData))) net
                        initial.
Proof.
  intros Hall. rewrite run_listing.
  unfold after, join, fetchReposAndImages.
  rewrite slots_all_settled; [done|].
  intros j Hj. by apply elem_of_reverse, Hall.
Qed.

Lemma run_six_readmes :
  run (H := Examples.browser Examples.pages) initial
      (ListingSettled (Response true (Body (RepoArray Examples.tenRepos)))
         :: settling Examples.sixReadmes [5; 4; 3; 2; 1; 0])
  = fetchReposAndImages (H := Examples.browser Examples.pages)
      (Response true (Body (RepoArray Examples.tenRepos)))
      Examples.sixReadmes initial.
Proof.
  apply (run_fetchReposAndImages (H := Examples.browser Examples.pages)).
  intros j Hj. change (j < 6) in Hj.
  do 6 (destruct j as [|j]; [repeat constructor|]). lia.
Defined.

Lemma run_finished `{DomApi} (st : state) (net : nat -> fetch_result string)
      (schedule : list nat) :
  stage st = Finished -> run st (settling net schedule) = st.
Proof.
  intros Hst. unfold run.
  induction schedule as [|i schedule IH]; [done|].
  simpl. unfold step at 2. by rewrite Hst.
Qed.

(** X7: a listing that fails (a rejected request, a body that cannot be
    decoded, a body that is not an array) ends the loading with no
    repository, and no readme that settles afterwards changes that. *)
Lemma run_listing_failed `{DomApi} (ok : bool)
      (net : nat -> fetch_result string) (schedule : list nat) :
  run initial (ListingSettled FetchRejects :: settling net schedule)
  = State [] false Finished /\
  run initial (ListingSettled (Response ok BodyRejects)
                 :: settling net schedule)
  = State [] false Finished /\
  run initial (ListingSettled (Response ok (Body NotAnArray))
                 :: settling net schedule)
  = State [] false Finished.
Proof.
  repeat split;
    apply (run_finished (State [] false Finished) net schedule eq_refl).
Qed.

Lemma withImages_failed `{DomApi} (r : repo) (o : fetch_result string) :
  failed o = true -> withImages r o = WithImages r [].
Proof. by destruct o as [|[] []]. Qed.

(** C5: the listing being received, let the readme of repository [i] fail
    (a rejected request, a status that is not a success, a body that
    cannot be read).  Once every readme has settled, in whatever order, the
    list is published with one entry per repository: entry [i] is the
    repository with no image, and every other entry is what its own readme
    gives.  As long as a readme has not settled, nothing is published and
    the component is loading. *)
Theorem readme_failure_isolated `{DomApi} (ok : bool) (reposData : list repo)
        (net : nat -> fetch_result string) (schedule : list nat)
        (i : nat) (r : repo) :
  let chosen := selectRepos reposData in
  let final :=
    run initial (ListingSettled (Response ok (Body (RepoArray reposData)))
                   :: settling net schedule) in
  chosen !! i = Some r ->
  failed (net i) = true ->
  ((forall j, j < length chosen -> j ∈ schedule) ->
   loading final = false /\
   length (repos final) = length chosen /\
   repos final !! i = Some (WithImages r []) /\
   forall j r', j <> i -> chosen !! j = Some r' ->
                repos final !! j = Some (withImages r' (net j))) /\
  ((exists j, j < length chosen /\ j ∉ schedule) ->
   loading final = true /\ repos final = []).
Proof.
  intros chosen final Hi Hfailed. unfold final. rewrite run_listing.
  fold chosen. unfold after, join. split.
  - intros Hall. rewrite slots_all_settled.
    2:{ intros j Hj. apply elem_of_reverse. by apply Hall. }
    cbn [loading repos]. split; [done|]. split; [by rewrite length_imap|].
    split.
    + rewrite list_lookup_imap, Hi. simpl. by rewrite withImages_failed.
    + intros j r' _ Hj. by rewrite list_lookup_imap, Hj.
  - intros (j & Hj & Hpending). rewrite (slots_pending _ _ _ j); [done..|].
    by rewrite elem_of_reverse.
Qed.

End BatchFacts.

(** ** Examples on the documents of the site *)

Module ExampleFacts.
Import JS Dom Http.

(** The gallery in the list: the two images under [/assets/], in the order
    of the document. *)
Example gallery_in_list :
  Projects.imageUrls
    (Projects.withImages (H := Examples.browser Examples.pages)
       Examples.portfolio (Response true (Body Examples.gallery)))
  = ["https://raw.githubusercontent.com/tyler-bravin/Portfolio-Website/main/./assets/Website.png";
     "https://raw.githubusercontent.com/tyler-bravin/Portfolio-Website/main/assets/mobile.png"].
Proof. reflexivity. Qed.

(** The screenshot in the detail view: the source is rewritten in the
    document that is published. *)
Example screenshot_in_detail :
  ProjectModal.fetchReadme (H := Examples.browser Examples.pages)
    Examples.portfolio (Response true (Body Examples.screenshot))
  = "<img src="
      +:+ Examples.quoted "https://raw.githubusercontent.com/tyler-bravin/Portfolio-Website/main/assets/Website.png"
      +:+ " alt=" +:+ Examples.quoted "Screenshot" +:+ ">".
Proof. reflexivity. Qed.

Lemma gallery_in_detail :
  ProjectModal.fetchReadme (H := Examples.browser Examples.pages)
    Examples.portfolio (Response true (Body Examples.gallery))
  = ProjectModal.placeholder.
Proof.
  refine (proj1 (DetailFacts.detail_missing_src_placeholder
                   (H := Examples.browser Examples.pages)
                   Examples.portfolio true Examples.gallery
                   (Element "img" [("alt", "logo")] []) _ _)).
  - change (Element "img" [("alt", "logo")] []
              ∈ [Examples.img "https://img.shields.io/badge/React-20232A";
                 Examples.img "./assets/Website.png";
                 Element "img" [("alt", "logo")] [];
                 Examples.img "docs/shot.png";
                 Examples.img "/assets/mobile.png"]).
    repeat constructor.
  - reflexivity.
Defined.

Lemma six_readmes_one_failure :
  let final :=
    Projects.run (H := Examples.browser Examples.pages) Projects.initial
      (Projects.ListingSettled
         (Response true (Body (Projects.RepoArray Examples.tenRepos)))
         :: Projects.settling Examples.sixReadmes [3; 0; 5; 2; 1; 4]) in
  Projects.loading final = false /\
  length (Projects.repos final) = 6 /\
  Projects.repos final !! 2
  = Some (Projects.WithImages (Examples.project 4 "d" false) []).
Proof.
  destruct (BatchFacts.readme_failure_isolated
              (H := Examples.browser Examples.pages) true Examples.tenRepos
              Examples.sixReadmes [3; 0; 5; 2; 1; 4] 2
              (Examples.project 4 "d" false))
    as [Hall _]; [reflexivity|reflexivity|].
  destruct Hall as (Hloading & Hlength & Hfailed & _).
  - intros j Hj. change (j < 6) in Hj.
    do 6 (destruct j as [|j]; [repeat constructor|]). lia.
  - exact (conj Hloading (conj Hlength Hfailed)).
Defined.

(** C6: the status of the response is not looked at in the detail view.
    The body of the reply with status 404 is parsed and published as the
    readme: the document shown is that body, not the placeholder. *)
Theorem detail_error_body_published :
  ProjectModal.fetchReadme (H := Examples.browser [])
    Examples.portfolio (Response false (Body Examples.notFound))
  = Examples.notFound /\
  Examples.notFound <> ProjectModal.placeholder /\
  ProjectModal.render
    (ProjectModal.run (H := Examples.browser []) ProjectModal.initial
       [ProjectModal.Render (Some (1, Examples.portfolio));
        ProjectModal.Settled 0 (Response false (Body Examples.notFound))])
  = Some (ProjectModal.Document Examples.notFound) /\
  forall (D : DomApi) r ok html,
    ProjectModal.fetchReadme r (Response ok (Body html))
    = ProjectModal.fetchReadme r (Response true (Body html)).
Proof. repeat split; try reflexivity. discriminate. Qed.

(** In the detail view, a rejected request and a body that cannot be
    read give the placeholder. *)
Lemma detail_rejections_placeholder `{DomApi} (r : repo) (ok : bool) :
  ProjectModal.fetchReadme r FetchRejects = ProjectModal.placeholder /\
  ProjectModal.fetchReadme r (Response ok BodyRejects)
  = ProjectModal.placeholder.
Proof. done. Qed.

End ExampleFacts.

(** ** More on the detail view *)

Module LoopFacts.
Import JS Dom Http ProjectModal.

Lemma sources_is_Some (images : list node) :
  Forall (fun img => is_Some (getAttribute img "src")) images \/
  exists img, img ∈ images /\ getAttribute img "src" = None.
Proof.
  induction images as [|img images [IH|(bad & Hbad & Hsrc)]].
  - left. constructor.
  - destruct (getAttribute img "src") as [src|] eqn:E.
    + left. constructor; [by exists src|done].
    + right. exists img. split; [apply elem_of_cons; by left|done].
  - right. exists bad. split; [apply elem_of_cons; by right|done].
Qed.

Lemma fixImages_Some (r : repo) (children : list node) :
  Forall (fun img => is_Some (getAttribute img "src"))
         (querySelectorAll_img children) ->
  exists children',
    fixImages r children = Some children' /\
    sources (querySelectorAll_img children')
    = map (fmap (rewriteSrc r)) (sources (querySelectorAll_img children)).
Proof.
  intros Hsrc. apply TraversalFacts.fixImages_rewritten; [|done].
  apply Forall_forall. intros n _. apply TraversalFacts.fixNode_rewritten.
Qed.

(** X5: the loop over the images faults exactly when some image of the tree,
    at any depth, has no [src]. *)
Lemma loop_faults_iff (r : repo) (children : list node) :
  fixImages r children = None <->
  exists img, img ∈ querySelectorAll_img children /\
              getAttribute img "src" = None.
Proof.
  split.
  - intros Hfault.
    destruct (sources_is_Some (querySelectorAll_img children)) as [Hall|Hbad];
      [|done].
    destruct (fixImages_Some r children Hall) as (children' & Hfix & _).
    congruence.
  - intros (img & Himg & Hsrc).
    by apply (DetailFacts.fixImages_missing_src r children img).
Qed.



Lemma filter_update_attribute (name value : string) attrs :
  List.filter (fun kv => negb (String.eqb (fst kv) name))
              (update_attribute name value attrs)
  = List.filter (fun kv => negb (String.eqb (fst kv) name)) attrs.
Proof.
  induction attrs as [|[k v] attrs IH]; simpl.
  - by rewrite String.eqb_refl.
  - destruct (String.eqb k name) eqn:E; simpl; rewrite E; simpl;
      [done|by rewrite IH].
Qed.

Lemma fixImage_skeleton (r : repo) (tag : string) attrs children (n' : node) :
  fixImage r (Element tag attrs children) = Some n' ->
  exists attrs', n' = Element tag attrs' children /\
                 Skeleton.otherAttributes "img" attrs'
                 = Skeleton.otherAttributes "img" attrs.
Proof.
  unfold fixImage. cbn [getAttribute].
  destruct (lookup_attribute "src" attrs) as [src|]; [|done].
  destruct (negb (startsWith src "http")); intros [= <-].
  - eexists. split; [done|]. apply filter_update_attribute.
  - by exists attrs.
Qed.

Lemma fixNode_skeleton (r : repo) (n n' : node) :
  fixNode r n = Some n' -> Skeleton.skeleton n' = Skeleton.skeleton n.
Proof.
  revert n'.
  induction n as [data|tag attrs children IH] using DetailFacts.node_tree_ind;
    intros n'.
  - by intros [= <-].
  - rewrite DetailFacts.fixNode_element.
    destruct (fixImages r children) as [children'|] eqn:Hchildren.
    2:{ by destruct (if is_img _ then _ else _). }
    assert (map Skeleton.skeleton children' = map Skeleton.skeleton children)
      as Hmap.
    { apply mapM_Some_1 in Hchildren. clear -IH Hchildren.
      induction Hchildren as [|c c' cs cs' Hc _ IHcs]; [done|].
      apply Forall_cons in IH as [IHc IH]. simpl.
      by rewrite (IHc _ Hc), IHcs. }
    destruct (is_img (Element tag attrs children)) eqn:Himg.
    + destruct (fixImage r (Element tag attrs children)) as [img|] eqn:Hfix;
        [|done].
      destruct (fixImage_skeleton _ _ _ _ _ Hfix) as (attrs' & -> & Hattrs).
      intros [= <-]. cbn [is_img] in Himg.
      apply String.eqb_eq in Himg. subst tag.
      cbn [withChildren Skeleton.skeleton]. by rewrite Hattrs, Hmap.
    + intros [= <-]. cbn [withChildren Skeleton.skeleton]. by rewrite Hmap.
Qed.

(** X9: the loop changes nothing but the [src] of [img] elements: the text,
    the elements, their order and nesting, every attribute of every other
    element (the [href] of a link, the [src] of a [source] or a [script])
    and every other attribute of an image are as they were fetched. *)
Lemma loop_changes_image_sources_only (r : repo)
      (children children' : list node) :
  fixImages r children = Some children' ->
  map Skeleton.skeleton children' = map Skeleton.skeleton children.
Proof.
  intros Hfix. apply mapM_Some_1 in Hfix.
  induction Hfix as [|c c' cs cs' Hc _ IH]; [done|].
  simpl. by rewrite (fixNode_skeleton r c c' Hc), IH.
Qed.


Lemma guide_skeleton :
  map Skeleton.skeleton Samples.guideFixed
  = map Skeleton.skeleton Samples.guide.
Proof.
  exact (loop_changes_image_sources_only Examples.portfolio Samples.guide
                                         Samples.guideFixed eq_refl).
Defined.

End LoopFacts.

(** ** More on the language tagger *)

Module KeysFacts.
Import JS Http RepoLanguages.

Lemma array_index_canonical (key : string) (n : N) :
  array_index key = Some n -> index_key n = key.
Proof.
  unfold array_index.
  destruct (NilEmpty.uint_of_string key) as [u|]; [|done].
  destruct (String.eqb_spec (index_key (N.of_uint u)) key) as [E|]; [|done].
  simpl. destruct (_ <? _)%N; [|done]. by intros [= <-].
Qed.

Lemma insert_index_perm (n : N) (l : list N) : insert_index n l ≡ₚ n :: l.
Proof.
  induction l as [|m l IH]; [done|]. simpl.
  destruct (n <=? m)%N; [done|]. rewrite IH. apply perm_swap.
Qed.

Lemma ascending_perm (l : list N) : ascending l ≡ₚ l.
Proof.
  induction l as [|n l IH]; [done|].
  unfold ascending in *. simpl. by rewrite insert_index_perm, IH.
Qed.

Lemma filter_split_perm {A} (f : A -> bool) (l : list A) :
  List.filter f l ++ List.filter (fun x => negb (f x)) l ≡ₚ l.
Proof.
  induction l as [|x l IH]; [done|]. simpl.
  destruct (f x); simpl.
  - by rewrite IH.
  - rewrite <- Permutation_middle. by rewrite IH.
Qed.

Lemma index_keys_filter (keys : list string) :
  map index_key (omap array_index keys) = List.filter is_index keys.
Proof.
  induction keys as [|k keys IH]; [done|]. simpl.
  unfold is_index at 1.
  destruct (array_index k) as [n|] eqn:E; simpl; [|exact IH].
  f_equal; [by apply array_index_canonical|exact IH].
Qed.

(** [Object.keys] lists every key once: the keys of the object in another
    order. *)
Lemma own_keys_permutation (keys : list string) : own_keys keys ≡ₚ keys.
Proof.
  unfold own_keys.
  assert (map index_key (ascending (omap array_index keys))
          ≡ₚ List.filter is_index keys) as Hindices.
  { rewrite <- index_keys_filter.
    apply (fmap_Permutation index_key), ascending_perm. }
  etrans; [|apply (filter_split_perm is_index)].
  by apply Permutation_app.
Qed.

(** X10: the tags of a decoded object are keys of that object, three at most,
    and no key twice; they are three as soon as the object has three
    keys. *)
Lemma tags_are_keys (languages : list string) (ok : bool)
      (properties : list (string * json)) :
  NoDup (map fst properties) ->
  let tags :=
    fetchLanguages languages (Response ok (Body (JObject properties))) in
  (forall tag, tag ∈ tags -> tag ∈ map fst properties) /\
  NoDup tags /\
  length tags = Nat.min 3 (length properties).
Proof.
  intros Hdistinct tags.
  assert (tags = take 3 (own_keys (map fst properties))) as ->.
  { apply (JSFacts.slice_prefix 3). }
  pose proof (own_keys_permutation (map fst properties)) as Hperm.
  split; [|split].
  - intros tag Htag. rewrite <- Hperm.
    eapply elem_of_sublist; [exact Htag|apply sublist_take].
  - eapply sublist_NoDup; [|apply sublist_take]. by rewrite Hperm.
  - rewrite length_take, (Permutation_length Hperm), length_map. done.
Qed.

Lemma tags_are_keys_example :
  let tags :=
    fetchLanguages []
      (Response true (Body (JObject [("Vue", JNumber 7); ("3", JNumber 5);
                                     ("CSS", JNumber 2); ("10", JNumber 1)])))
  in
  (forall tag, tag ∈ tags -> tag ∈ ["Vue"; "3"; "CSS"; "10"]) /\
  NoDup tags /\ length tags = 3.
Proof.
  apply (tags_are_keys [] true
           [("Vue", JNumber 7); ("3", JNumber 5); ("CSS", JNumber 2);
            ("10", JNumber 1)]).
  apply (bool_decide_unpack _). reflexivity.
Defined.

Lemma fetchLanguages_effective (languages : list string)
      (response : fetch_result json) :
  fetchLanguages languages response
  = if TagRuns.effective response then fetchLanguages [] response
    else languages.
Proof.
  destruct response as [|ok [|data]]; try done.
  unfold TagRuns.effective, fetchLanguages.
  by destruct (Object_keys data).
Qed.

(** X4: over the runs of the effect the tags are those of the last response
    with which [setLanguages] was reached: a request that is rejected, a
    body that cannot be decoded and a body that decodes to [null] leave
    the tags of the run before, and there is no tag if no run reached
    [setLanguages]. *)
Lemma tags_after_runs (responses : list (fetch_result json)) :
  TagRuns.afterRuns responses
  = match last (List.filter TagRuns.effective responses) with
    | Some response => fetchLanguages [] response
    | None => []
    end.
Proof.
  unfold TagRuns.afterRuns.
  induction responses as [|response responses IH] using rev_ind; [done|].
  rewrite fold_left_app, List.filter_app. simpl.
  rewrite fetchLanguages_effective.
  destruct (TagRuns.effective response).
  - by rewrite last_snoc.
  - by rewrite app_nil_r.
Qed.

End KeysFacts.

(** ** More on the URLs of the list *)

Module UrlFacts.
Import JS Dom Http Projects.

Lemma replace_leading_slash_cons (c : ascii) (s : string) :
  c <> "/"%char -> replace_leading_slash (String c s) = String c s.
Proof. intros Hc. JSFacts.by_char c. Qed.

Lemma rawBase_slash (r : repo) :
  exists stem, rawBase r = stem +:+ "/".
Proof.
  exists ("https://raw.githubusercontent.com/" +:+ GITHUB_USERNAME +:+ "/"
          +:+ name r +:+ "/" +:+ or_else (default_branch r) "main").
  unfold rawBase. by rewrite !JSFacts.append_assoc.
Qed.

(** The segment [/assets/] of a source is still in its URL: the slash that
    the rewrite strips is given back by the prefix. *)
Lemma rawUrl_in_assets (r : repo) (src : string) :
  Spec.inAssets src -> Spec.inAssets (rawUrl r src).
Proof.
  intros (before & after & ->). rewrite RewriteFacts.rawUrl_base.
  destruct before as [|c before].
  - destruct (rawBase_slash r) as [stem ->].
    exists stem, after. rewrite JSFacts.append_nil.
    change (replace_leading_slash ("/assets/" +:+ after))
      with ("assets/" +:+ after).
    by rewrite JSFacts.append_assoc.
  - rewrite JSFacts.append_cons.
    destruct (ascii_dec c "/") as [->|Hc].
    + exists (rawBase r +:+ before), after.
      change (replace_leading_slash (String "/" (before +:+ "/assets/" +:+ after)))
        with (before +:+ "/assets/" +:+ after).
      by rewrite JSFacts.append_assoc.
    + rewrite replace_leading_slash_cons by done.
      exists (rawBase r +:+ String c before), after.
      by rewrite <- JSFacts.append_cons, JSFacts.append_assoc.
Qed.

(** X11: whatever the readme request gives, every URL published for a
    repository starts with the raw-content prefix of that repository and
    contains the segment [/assets/]; and there are no more URLs than images
    in the document that was fetched. *)
Lemma list_urls_shape `{DomApi} (r : repo) (readme : fetch_result string)
      (html : string) :
  Forall (fun url => startsWith url (rawBase r) = true /\
                     includes url "/assets/" = true)
         (imageUrls (withImages r readme)) /\
  length (imageUrls (withImages r (Response true (Body html))))
  <= length (querySelectorAll_img (parseHTML html)).
Proof.
  assert (forall page,
             exists urls,
               imageUrls (withImages r (Response true (Body page))) = urls /\
               Forall2 (fun img url =>
                          exists src, getAttribute img "src" = Some src /\
                                      url = rawUrl r src)
                       (List.filter fromAssets
                          (querySelectorAll_img (parseHTML page))) urls)
    as Hpage.
  { intros page.
    destruct (FilterFacts.extractUrls_retained
                r (querySelectorAll_img (parseHTML page)))
      as (urls & Hurls & Hall).
    exists urls. split; [|done]. unfold withImages. simpl. by rewrite Hurls. }
  split.
  - destruct readme as [|[] [|page]]; try constructor.
    destruct (Hpage page) as (urls & -> & Hall).
    assert (Forall (fun img => fromAssets img = true)
                   (List.filter fromAssets
                      (querySelectorAll_img (parseHTML page)))) as Hkept.
    { apply Forall_forall. intros img Himg.
      by apply list_elem_of_In, filter_In in Himg as [_ ?]. }
    revert Hall Hkept.
    generalize (List.filter fromAssets
                  (querySelectorAll_img (parseHTML page))) as kept.
    intros kept Hall.
    induction Hall as [|img url kept urls (src & Hsrc & ->) _ IH];
      intros Hkept; [constructor|].
    apply Forall_cons in Hkept as [Himg Hkept].
    constructor; [|by apply IH]. split.
    + rewrite RewriteFacts.rawUrl_base. apply JSFacts.startsWith_append.
    + apply JSFacts.includes_spec, rawUrl_in_assets.
      apply FilterFacts.fromAssets_spec in Himg as (src' & Hsrc' & Hin).
      congruence.
  - destruct (Hpage html) as (urls & -> & Hall).
    rewrite <- (Forall2_length _ _ _ Hall).
    apply List.filter_length_le.
Qed.

Lemma correctedSrc_base (r : repo) (src : string) :
  ProjectModal.correctedSrc r src
  = Addressing.detailBase r +:+ replace_leading_dot_slash src.
Proof.
  unfold ProjectModal.correctedSrc, Addressing.detailBase.
  by rewrite !JSFacts.append_assoc.
Qed.

Lemma append_longer (a b : string) : a <> "" -> a +:+ b <> b.
Proof.
  intros Ha Heq. apply (f_equal String.length) in Heq.
  rewrite RewriteFacts.length_append in Heq. destruct a; [done|].
  simpl in Heq. lia.
Qed.

Lemma rawBase_nonempty (r : repo) : rawBase r <> "".
Proof. done. Qed.

(** X12: for a repository of the account, the list and the detail view give a
    source the same URL exactly when the source starts neither with [http]
    nor with [./]. *)
Lemma list_and_detail_agree (r : repo) (src : string) :
  owner_login r = GITHUB_USERNAME ->
  rawUrl r src = ProjectModal.rewriteSrc r src <->
  startsWith src "http" = false /\ startsWith src "./" = false.
Proof.
  intros Howner.
  assert (Addressing.detailBase r = rawBase r) as Hbase.
  { unfold Addressing.detailBase, rawBase. by rewrite Howner. }
  rewrite RewriteFacts.rawUrl_base. unfold ProjectModal.rewriteSrc.
  rewrite correctedSrc_base, Hbase.
  destruct (startsWith src "http") eqn:Hhttp; cbn [negb].
  - split; [|by intros [? _]]. intros Heq. exfalso.
    apply JSFacts.startsWith_inv in Hhttp as [rest ->].
    by apply (append_longer (rawBase r) ("http" +:+ rest)).
  - destruct (startsWith src "./") eqn:Hdot.
    + split; [|by intros [_ ?]]. intros Heq. exfalso.
      apply JSFacts.startsWith_inv in Hdot as [rest ->].
      apply (inj (String.app (rawBase r))) in Heq.
      by apply (append_longer "./" rest).
    + split; [done|]. intros _. f_equal.
      rewrite JSFacts.replace_leading_dot_slash_stripped.
      unfold Spec.stripped. rewrite Hdot.
      destruct src as [|c src]; [done|].
      destruct (ascii_dec c "/") as [->|Hc]; [done|].
      rewrite replace_leading_slash_cons by done.
      JSFacts.by_char c.
Qed.

Lemma list_and_detail_agree_example :
  rawUrl Examples.portfolio "/assets/mobile.png"
  = ProjectModal.rewriteSrc Examples.portfolio "/assets/mobile.png".
Proof.
  apply (list_and_detail_agree Examples.portfolio "/assets/mobile.png");
    [reflexivity|]. split; reflexivity.
Defined.

End UrlFacts.

(** ** The theme *)

Module ThemeFacts.
Import JS DarkMode.

Lemma initialTheme_nonempty (p : page) : initialTheme p <> "".
Proof.
  unfold initialTheme. by destruct (localStorage p !! "theme") as [[|c s]|].
Qed.

Lemma toggleTheme_cases (t : string) :
  toggleTheme t = "light" /\ t <> "light" \/
  toggleTheme t = "dark" /\ t = "light".
Proof.
  unfold toggleTheme. destruct (String.eqb_spec t "light"); auto.
Qed.

Lemma click_theme (st : state) : theme (click st) = toggleTheme (theme st).
Proof.
  unfold click.
  destruct (String.eqb_spec (toggleTheme (theme st)) (theme st)) as [E|];
    [|done].
  by destruct (toggleTheme_cases (theme st)) as [[? ?]|[? ?]]; congruence.
Qed.

Lemma synced_mount (p : page) : synced p (mount p).
Proof.
  unfold mount, persist. repeat split; simpl.
  - apply initialTheme_nonempty.
  - apply lookup_insert_eq.
  - intros key Hkey. by rewrite lookup_insert_ne.
Qed.

Lemma synced_click (p : page) (st : state) : synced p st -> synced p (click st).
Proof.
  intros (Hne & Hstored & Hattr & Hframe). unfold click.
  destruct (String.eqb_spec (toggleTheme (theme st)) (theme st)) as [E|_];
    [done|].
  unfold persist. repeat split; simpl.
  - by destruct (toggleTheme_cases (theme st)) as [[-> _]|[-> _]].
  - apply lookup_insert_eq.
  - intros key Hkey. rewrite lookup_insert_ne by done. by apply Hframe.
Qed.

Lemma synced_clicks (p : page) (n : nat) : synced p (clicks n (mount p)).
Proof.
  induction n as [|n IH]; [apply synced_mount|].
  by apply synced_click.
Qed.

(** X13: for every content of the storage and every number of clicks on the
    switcher, the theme shown is what the storage holds under [theme] and
    what the attribute [data-theme] holds, the page loaded again starts with
    that theme, and no other key of the storage has changed. *)
Lemma theme_survives_reload (p : page) (n : nat) :
  let st := clicks n (mount p) in
  theme (reload st) = theme st /\
  localStorage (document st) !! "theme" = Some (theme st) /\
  dataTheme (document st) = Some (theme st) /\
  forall key, key <> "theme" ->
              localStorage (document st) !! key = localStorage p !! key.
Proof.
  intros st. destruct (synced_clicks p n) as (Hne & Hstored & Hattr & Hframe).
  fold st in Hne, Hstored, Hattr, Hframe.
  split; [|done].
  unfold reload, mount, initialTheme. simpl. rewrite Hstored.
  by destruct (theme st).
Qed.

Lemma toggle_twice (t : string) :
  toggleTheme (toggleTheme t) = t <-> t = "light" \/ t = "dark".
Proof.
  unfold toggleTheme.
  destruct (String.eqb_spec t "light") as [->|Hlight].
  - split; [by left|reflexivity].
  - change (String.eqb "light" "light") with true. cbv iota.
    split; [intros <-; by right|]. by intros [?| ->].
Qed.

Lemma clicks_theme (n : nat) (st : state) :
  theme (clicks n st) = Nat.iter n toggleTheme (theme st).
Proof.
  induction n as [|n IH]; [done|].
  unfold clicks in *. simpl. by rewrite click_theme, IH.
Qed.

Lemma theme_after_click (p : page) (n : nat) :
  theme (clicks (S n) (mount p)) = "light" \/
  theme (clicks (S n) (mount p)) = "dark".
Proof.
  rewrite clicks_theme, Nat.iter_succ.
  destruct (toggleTheme_cases (Nat.iter n toggleTheme (theme (mount p))))
    as [[-> _]|[-> _]]; auto.
Qed.

(** X14: toggling twice gives the theme back exactly for [light] and [dark];
    any other stored value is taken for dark by the toggle, so that after
    the first click the theme is [light] or [dark], and every two clicks
    give it back. *)
Lemma toggle_settles (p : page) (n : nat) :
  let after k := theme (clicks k (mount p)) in
  (after (S n) = "light" \/ after (S n) = "dark") /\
  after (S (S (S n))) = after (S n) /\
  (after 2 = after 0 <-> after 0 = "light" \/ after 0 = "dark").
Proof.
  intros after. unfold after. rewrite !clicks_theme, !Nat.iter_succ.
  set (t := Nat.iter n toggleTheme (theme (mount p))).
  split; [|split].
  - destruct (toggleTheme_cases t) as [[-> _]|[-> _]]; auto.
  - apply toggle_twice.
    destruct (toggleTheme_cases t) as [[-> _]|[-> _]]; auto.
  - apply toggle_twice.
Qed.

(** X15: the favicon, the particles and the icon of the switcher read the theme
    each in its own way.  They show the same theme exactly when it is
    [light] or [dark]: for another value the favicon is the light one while
    the particles and the icon are those of the dark theme. *)
Lemma consumers_agree_iff (t : string) :
  (App.faviconHref t = "/favicon-dark.ico"
   <-> ParticleBackground.particleColor t = "#ccd6f6") <->
  t = "light" \/ t = "dark".
Proof.
  unfold App.faviconHref, ParticleBackground.particleColor.
  destruct (String.eqb_spec t "dark") as [Hdark|Hdark];
    destruct (String.eqb_spec t "light") as [Hlight|Hlight].
  - congruence.
  - split; [by right|done].
  - split; [by left|]. intros _. split; discriminate.
  - split; [|by intros [?|?]].
    intros [_ Himp]. specialize (Himp eq_refl). discriminate.
Qed.

(** X16: through a whole session the consumers of the theme agree: from the
    first render when the storage holds no theme, an empty one, [light] or
    [dark], and after the first click whatever the storage held. *)
Lemma consumers_agree_in_session (p : page) (n : nat) :
  let t := theme (clicks n (mount p)) in
  (1 <= n \/
   localStorage p !! "theme" ∈ [None; Some ""; Some "light"; Some "dark"]) ->
  (t = "light" \/ t = "dark") /\
  (App.faviconHref t = "/favicon-dark.ico"
   <-> ParticleBackground.particleColor t = "#ccd6f6") /\
  (ThemeSwitcher.render t = ThemeSwitcher.FiSun
   <-> ParticleBackground.lineColor t = "#8892b0").
Proof.
  intros t Hcase.
  assert (t = "light" \/ t = "dark") as Ht.
  { unfold t. destruct n as [|n].
    - destruct Hcase as [?|Hstored]; [lia|].
      simpl. unfold initialTheme.
      repeat (apply elem_of_cons in Hstored as [->|Hstored]; [by auto|]).
      by apply elem_of_nil in Hstored.
    - apply theme_after_click. }
  split; [done|]. destruct Ht as [->| ->]; done.
Qed.

Lemma consumers_agree_example :
  let t := theme (clicks 1 (mount (Page {["theme" := "blue"]} None))) in
  (t = "light" \/ t = "dark") /\
  (App.faviconHref t = "/favicon-dark.ico"
   <-> ParticleBackground.particleColor t = "#ccd6f6") /\
  (ThemeSwitcher.render t = ThemeSwitcher.FiSun
   <-> ParticleBackground.lineColor t = "#8892b0").
Proof.
  apply (consumers_agree_in_session (Page {["theme" := "blue"]} None) 1).
  left. lia.
Defined.

End ThemeFacts.

(** ** The favicon *)

Module FaviconFacts.
Import Dom App.

Lemma hasId_containsId (id : string) (n : node) :
  hasId id n = true -> containsId id n = true.
Proof.
  destruct n as [|tag attrs children]; [done|].
  simpl. by intros ->.
Qed.

Lemma newLink_hasId (theme : string) : hasId "favicon" (newLink theme) = true.
Proof. reflexivity. Qed.

Lemma locate_free (id : string) (k : nat) (l rest : list node) :
  Forall (free id) l -> locate id k (l ++ rest) = locate id (k + length l) rest.
Proof.
  intros Hfree. revert k.
  induction Hfree as [|c l Hc _ IH]; intros k; simpl.
  - by rewrite Nat.add_0_r.
  - unfold free in Hc. rewrite Hc.
    destruct (hasId id c) eqn:Hid.
    + apply hasId_containsId in Hid. congruence.
    + rewrite IH. f_equal. lia.
Qed.

Lemma locate_found (id : string) (k : nat) (head : list node) :
  match locate id k head with
  | Absent => Forall (free id) head
  | HeadChild i =>
      exists before c after,
        head = before ++ c :: after /\ Forall (free id) before /\
        hasId id c = true /\ i = k + length before
  | Elsewhere => True
  end.
Proof.
  revert k. induction head as [|c head IH]; intros k; simpl; [constructor|].
  destruct (hasId id c) eqn:Hid.
  - exists [], c, head. repeat split; [constructor|done|simpl; lia].
  - destruct (containsId id c) eqn:Hc; [done|].
    specialize (IH (S k)). destruct (locate id (S k) head) as [|i|]; [| |done].
    + by constructor.
    + destruct IH as (before & c' & after & -> & Hfree & Hid' & ->).
      exists (c :: before), c', after.
      repeat split; [by constructor|done|simpl; lia].
Qed.

Lemma filter_free (id : string) (l : list node) :
  Forall (free id) l ->
  List.filter (containsId id) l = [] /\
  List.filter (fun c => negb (containsId id c)) l = l.
Proof.
  induction 1 as [|c l Hc _ [IH1 IH2]]; [done|].
  unfold free in Hc. simpl. rewrite Hc. simpl. by rewrite IH1, IH2.
Qed.

Lemma free_filter (id : string) (l : list node) :
  List.filter (containsId id) l = [] -> Forall (free id) l.
Proof.
  induction l as [|c l IH]; [constructor|]. simpl.
  destruct (containsId id c) eqn:Hc; [done|].
  intros Hl. constructor; [done|by apply IH].
Qed.

(** One run of the effect on a head that was left by a run. *)
Lemma faviconEffect_again (theme theme' : string) (rest body : list node) :
  Forall (free "favicon") rest ->
  faviconEffect theme' (rest ++ [newLink theme]) body
  = Some (rest ++ [newLink theme']).
Proof.
  intros Hfree. unfold faviconEffect, getElementById.
  rewrite (locate_free "favicon" 0 rest [newLink theme] Hfree).
  simpl. by rewrite (delete_middle rest [] (newLink theme)), app_nil_r.
Qed.

(** The first run of the effect, on a document in which [getElementById]
    does not find the favicon outside the children of [head] and at most
    one child of [head] carries the id. *)
Lemma faviconEffect_first (theme : string) (head body : list node) :
  getElementById "favicon" head body <> Elsewhere ->
  length (List.filter (containsId "favicon") head) <= 1 ->
  faviconEffect theme head body
  = Some (List.filter (fun c => negb (containsId "favicon" c)) head
            ++ [newLink theme]).
Proof.
  intros Hfound Hone. unfold faviconEffect. unfold getElementById in *.
  pose proof (locate_found "favicon" 0 head) as Hlocate.
  destruct (locate "favicon" 0 head) as [|i|]; [| |done].
  - destruct (existsb (containsId "favicon") body); [done|].
    by rewrite (proj2 (filter_free _ _ Hlocate)).
  - destruct Hlocate as (before & c & after & -> & Hbefore & Hid & ->).
    destruct (filter_free _ _ Hbefore) as [Hnone Hkept].
    apply hasId_containsId in Hid.
    rewrite List.filter_app in Hone |- *. simpl in Hone |- *.
    rewrite Hid, Hnone in Hone. simpl in Hone.
    assert (List.filter (containsId "favicon") after = []) as Hafter.
    { destruct (List.filter (containsId "favicon") after); [done|].
      simpl in Hone. lia. }
    apply free_filter, filter_free in Hafter as [_ Hafter].
    rewrite Hid, Hkept, Hafter. simpl.
    by rewrite delete_middle.
Qed.

Lemma faviconEffects_again (themes : list string) (theme theme' : string)
      (rest body : list node) :
  Forall (free "favicon") rest ->
  faviconEffects (themes ++ [theme']) (rest ++ [newLink theme]) body
  = Some (rest ++ [newLink theme']).
Proof.
  intros Hfree. revert theme.
  induction themes as [|t themes IH]; intros theme; simpl.
  - by rewrite (faviconEffect_again theme theme' rest body Hfree).
  - by rewrite (faviconEffect_again theme t rest body Hfree), IH.
Qed.

(** X17: the favicon is replaced, never added to: on a document whose favicon,
    if it has one, is a child of [head] and the only one, the effect does
    not fault however often the theme changes, and after its runs the
    children of [head] are those that were there, the favicon apart, in
    their order, followed by one link for the theme of the last run. *)
Lemma favicon_replaced (themes : list string) (theme : string)
      (head body : list node) :
  getElementById "favicon" head body <> Elsewhere ->
  length (List.filter (containsId "favicon") head) <= 1 ->
  faviconEffects (themes ++ [theme]) head body
  = Some (List.filter (fun c => negb (containsId "favicon" c)) head
            ++ [newLink theme]).
Proof.
  intros Hfound Hone.
  assert (Forall (free "favicon")
                 (List.filter (fun c => negb (containsId "favicon" c)) head))
    as Hfree.
  { apply Forall_forall. intros c Hc.
    apply list_elem_of_In, filter_In in Hc as [_ Hc].
    unfold free. by destruct (containsId "favicon" c). }
  destruct themes as [|t themes]; simpl.
  - by rewrite (faviconEffect_first theme head body Hfound Hone).
  - rewrite (faviconEffect_first t head body Hfound Hone).
    by apply faviconEffects_again.
Qed.

Lemma favicon_replaced_example :
  faviconEffects ["dark"; "light"; "dark"] Samples.indexHead [] 
  = Some [Element "meta" [("charset", "utf-8")] [];
          Element "title" [] [Text "Tyler Bravin"];
          newLink "dark"].
Proof.
  apply (favicon_replaced ["dark"; "light"] "dark" Samples.indexHead []).
  - discriminate.
  - simpl. lia.
Defined.

End FaviconFacts.

(** ** The particle background *)

Module ParticleFacts.
Import ParticleBackground ParticleInvariants.

(** The cases of a step, on a state given by its fields. *)
Ltac by_cases :=
  unfold step, effect, initializeParticles; cbn;
  repeat case_match; simplify_eq/=; eauto.

Lemma scriptOnce_step (loaded : bool) (st : state) (e : event) :
  scriptOnce loaded st -> scriptOnce loaded (step st e).
Proof.
  intros Hst. destruct st as [th pc js ct ref n dr].
  destruct loaded; cbn in Hst.
  - destruct Hst as (-> & -> & ->). destruct e; by_cases.
  - destruct Hst as ([c ->] & ->). destruct e; by_cases.
Qed.

Lemma scriptOnce_mount (theme : string) (w : Z) (loaded : bool) :
  scriptOnce loaded (mount theme w loaded).
Proof. destruct loaded; simpl; [done|]. split; [by eexists|done]. Qed.

(** X18: the script of the library is appended to [head] once when the library
    is missing at the first render, and never when it is there, however
    often the theme and the width change and whenever the script loads. *)
Lemma script_appended_once (theme : string) (w : Z) (loaded : bool)
      (events : list event) :
  let st := run (mount theme w loaded) events in
  scripts st = (if loaded then 0 else 1) /\
  (is_Some (scriptRef st) <-> loaded = false).
Proof.
  intros st.
  assert (scriptOnce loaded st) as Hst.
  { unfold st, run. generalize (scriptOnce_mount theme w loaded).
    generalize (mount theme w loaded) as st0.
    induction events as [|e events IH]; intros st0 H0; [done|].
    simpl. by apply IH, scriptOnce_step. }
  destruct loaded; simpl in Hst.
  - destruct Hst as (_ & Href & Hn). split; [done|].
    rewrite Href. split; [by intros [? ?]|done].
  - by destruct Hst as (Href & Hn).
Qed.

Lemma loading_step (first : config) (st : state) (e : event) :
  isChange e = true -> loading first st -> loading first (step st e).
Proof.
  intros He Hst. destruct st as [th pc js ct ref n dr].
  destruct Hst as (HJS & Hcontainer & Href & Hdrawn). cbn in *. subst.
  destruct e; try done; unfold loading; by_cases.
Qed.

(** X19: when the script has loaded, the particles are drawn with the theme and
    the count of the first render, whatever the theme and the width have
    become while it was loading. *)
Lemma late_load_draws_first_render (theme : string) (w : Z)
      (changes : list event) :
  Forall (fun e => isChange e = true) changes ->
  drawn (run (mount theme w false) (changes ++ [ScriptLoad]))
  = [closure theme (countFor w)].
Proof.
  intros Hchanges. unfold run. rewrite fold_left_app.
  assert (loading (closure theme (countFor w))
                  (fold_left step changes (mount theme w false)))
    as (HJS & Hcontainer & Href & Hdrawn).
  { assert (loading (closure theme (countFor w)) (mount theme w false))
      as H0 by done.
    revert H0. generalize (mount theme w false) as st0.
    induction Hchanges as [|e changes He _ IH]; intros st0 H0; [done|].
    simpl. by apply IH, loading_step. }
  destruct (fold_left step changes (mount theme w false))
    as [th pc js ct ref n dr].
  cbn in *. subst. reflexivity.
Qed.

Lemma late_load_example :
  let st := run (mount "dark" 1280 false)
                ([ThemeProp "light"; Resize 400] ++ [ScriptLoad]) in
  drawn st = [Config 100 "#ccd6f6" "#8892b0"].
Proof.
  apply (late_load_draws_first_render "dark" 1280
           [ThemeProp "light"; Resize 400]).
  repeat constructor.
Defined.

Lemma fresh_step (st : state) (e : event) :
  e <> Unmount -> fresh st -> fresh (step st e).
Proof.
  intros He Hst. destruct st as [th pc js ct ref n dr].
  destruct Hst as (HJS & Hcontainer & earlier & Hdrawn). cbn in *. subst.
  destruct e; try done; unfold fresh; by_cases.
Qed.

(** X20: when the library is there at the first render, the particles on the
    page are always those of the current theme and of the count for the
    current width, as long as the component is mounted. *)
Lemma particles_follow_theme (theme0 : string) (w : Z)
      (events : list event) :
  Forall (fun e => e <> Unmount) events ->
  let st := run (mount theme0 w true) events in
  exists earlier,
    drawn st = closure (theme st) (particleCount st) :: earlier.
Proof.
  intros Hevents st.
  assert (fresh st) as (_ & _ & Hdrawn); [|done].
  unfold st, run.
  assert (fresh (mount theme0 w true)) as H0.
  { repeat split. by eexists. }
  revert H0. generalize (mount theme0 w true) as st0.
  induction Hevents as [|e events He _ IH]; intros st0 H0; [done|].
  simpl. by apply IH, fresh_step.
Qed.

Lemma particles_follow_theme_example :
  let st := run (mount "dark" 1280 true)
                [ThemeProp "light"; Resize 400; Resize 500] in
  exists earlier,
    drawn st = Config 40 "#352f44" "#5c5470" :: earlier.
Proof.
  apply (particles_follow_theme "dark" 1280
           [ThemeProp "light"; Resize 400; Resize 500]).
  repeat constructor; discriminate.
Defined.

(** X21: once the component is unmounted nothing is drawn any more, also when
    the script loads afterwards. *)
Lemma nothing_drawn_after_unmount (st : state) (events : list event) :
  container st = false ->
  drawn (run st events) = drawn st /\ container (run st events) = false.
Proof.
  unfold run. revert st.
  induction events as [|e events IH]; intros st Hst; [done|].
  simpl.
  assert (drawn (step st e) = drawn st /\ container (step st e) = false)
    as [Hdrawn Hcontainer].
  { destruct st as [th pc js ct ref n dr]. cbn in Hst. subst.
    destruct e; by_cases. }
  destruct (IH _ Hcontainer) as [-> ->]. done.
Qed.

Lemma nothing_drawn_after_unmount_example :
  drawn (run (mount "dark" 1280 false) [Unmount; ScriptLoad]) = [].
Proof.
  exact (proj1 (nothing_drawn_after_unmount
                  (run (mount "dark" 1280 false) [Unmount]) [ScriptLoad]
                  eq_refl)).
Defined.

End ParticleFacts.

(** ** The tabs of the work history *)

Module ExperienceFacts.
Import Experience.

Lemma afterClicks_last (clicks : list nat) (start : nat) :
  fold_left (fun _ index => index) clicks start = default start (last clicks).
Proof.
  induction clicks as [|index clicks IH] using rev_ind; [done|].
  by rewrite fold_left_app, last_snoc.
Qed.

Lemma afterClicks_bound (jobs : list job) (clicks : list nat) :
  jobs <> [] -> Forall (fun index => index < length jobs) clicks ->
  afterClicks clicks < length jobs.
Proof.
  intros Hjobs Hclicks. unfold afterClicks. rewrite afterClicks_last.
  destruct (last clicks) as [index|] eqn:Hlast; simpl.
  - rewrite Forall_forall in Hclicks. apply Hclicks.
    by apply last_Some_elem_of.
  - destruct jobs; [done|]. simpl. lia.
Qed.

(** X22: with at least one job, whatever buttons are clicked, the index of the
    state is the index of a job: the details never fault, they are those of
    the job clicked last (the first job before any click), and exactly the
    button of that job is active. *)
Lemma tabs_stay_in_bounds (jobs : list job) (clicks : list nat) :
  jobs <> [] ->
  Forall (fun index => index < length jobs) clicks ->
  exists v active,
    render jobs (afterClicks clicks) = Some v /\
    jobs !! default 0 (last clicks) = Some active /\
    heading v = (title active, company active) /\
    dateLine v = date active /\
    points v = description active /\
    length (buttons v) = length jobs /\
    forall index name on,
      buttons v !! index = Some (name, on) ->
      (on = true <-> index = default 0 (last clicks)).
Proof.
  intros Hjobs Hclicks.
  pose proof (afterClicks_bound jobs clicks Hjobs Hclicks) as Hbound.
  unfold render.
  assert (afterClicks clicks = default 0 (last clicks)) as Hlast
    by apply afterClicks_last.
  destruct (lookup_lt_is_Some_2 jobs _ Hbound) as [active Hactive].
  rewrite Hactive. eexists _, active. split; [done|]. simpl.
  rewrite <- Hlast. do 4 (split; [done|]).
  split; [by rewrite length_imap|].
  intros index name on Hbutton. rewrite list_lookup_imap in Hbutton.
  destruct (jobs !! index) as [j|]; [|done].
  injection Hbutton as _ <-. apply Nat.eqb_eq.
Qed.

Lemma tabs_example :
  exists v active,
    render jobs (afterClicks [2; 0; 3]) = Some v /\
    jobs !! 3 = Some active /\
    heading v = (title active, company active) /\
    dateLine v = date active /\
    points v = description active /\
    length (buttons v) = 4 /\
    forall index name on,
      buttons v !! index = Some (name, on) -> (on = true <-> index = 3).
Proof.
  apply (tabs_stay_in_bounds jobs [2; 0; 3]); [discriminate|].
  repeat constructor.
Defined.

End ExperienceFacts.

(** ** The cards of the list *)

Module CardFacts.
Import JS Http Projects ProjectsView.

Lemma renderCard_top (rw : repoWithImages) :
  heading (renderCard rw) = name (summary rw) /\
  key (renderCard rw) = repo_id (summary rw) /\
  (top (renderCard rw) = NamePlaceholder (name (summary rw))
   <-> imageUrls rw = []).
Proof.
  unfold renderCard. destruct (imageUrls rw); simpl; by repeat split.
Qed.

(** X23: what the list shows: the loading text as long as a readme has not
    settled; then one card per selected repository, six at most, in the
    order of the listing, the card of a repository showing its name in place
    of the carousel exactly when its readme gave no image. *)
Lemma cards_of_the_list `{Dom.DomApi} (ok : bool) (reposData : list repo)
      (net : nat -> fetch_result string) (schedule : list nat) :
  let chosen := selectRepos reposData in
  let shown :=
    render (run initial
              (ListingSettled (Response ok (Body (RepoArray reposData)))
                 :: settling net schedule)) in
  ((exists j, j < length chosen /\ j ∉ schedule) -> shown = Loader) /\
  ((forall j, j < length chosen -> j ∈ schedule) ->
   exists cards,
     shown = Grid cards /\
     length cards = length chosen /\ length cards <= 6 /\
     forall i r,
       chosen !! i = Some r ->
       exists c,
         cards !! i = Some c /\ heading c = name r /\ key c = repo_id r /\
         (top c = NamePlaceholder (name r)
          <-> imageUrls (withImages r (net i)) = [])).
Proof.
  intros chosen shown. unfold shown. rewrite BatchFacts.run_listing.
  fold chosen. unfold after, join. split.
  - intros (j & Hj & Hpending).
    rewrite (BatchFacts.slots_pending _ _ _ j); [done..|].
    by rewrite elem_of_reverse.
  - intros Hall. rewrite BatchFacts.slots_all_settled.
    2:{ intros j Hj. by apply elem_of_reverse, Hall. }
    unfold render. cbn [loading repos]. eexists. split; [done|].
    rewrite length_map, length_imap. split; [done|]. split.
    { unfold chosen. rewrite ListerFacts.selectRepos_take, length_take. lia. }
    intros i r Hi. eexists. split.
    { rewrite list_lookup_fmap, list_lookup_imap, Hi. done. }
    pose proof (renderCard_top (withImages r (net i))) as Hcard.
    assert (summary (withImages r (net i)) = r) as Hsum.
    { unfold withImages. repeat case_match; done. }
    by rewrite Hsum in Hcard.
Qed.

Lemma cards_example :
  exists cards,
    render (run (H := Examples.browser Examples.pages) initial
              (ListingSettled
                 (Response true (Body (RepoArray Examples.tenRepos)))
                 :: settling Examples.sixReadmes [0; 1; 2; 3; 4; 5]))
    = Grid cards /\ length cards = 6.
Proof.
  destruct (cards_of_the_list (H := Examples.browser Examples.pages) true
              Examples.tenRepos Examples.sixReadmes [0; 1; 2; 3; 4; 5])
    as [_ Hall].
  destruct Hall as (cards & Hshown & Hlen & _).
  - intros j Hj. change (j < 6) in Hj.
    do 6 (destruct j as [|j]; [repeat constructor|]). lia.
  - exists cards. split; [exact Hshown|exact Hlen].
Defined.

End CardFacts.

(** ** The openings of the detail view *)

Module OpeningFacts.
Import Dom Http ProjectModal Openings.

Section Session.
Context `{DomApi}.







End Session.


End OpeningFacts.
